(** * APIKernal: the dotted-path query engine of [parse_response]

    A shallow embedding of [parse_response] and of its inner function
    [resolve_path] (src/APIKernal.py), and the properties of the path
    language established on it.

    Conventions of the embedding.
    - A Python [str] is a Rocq [string]; the character of code [n] stands
      for the code point [n], so the strings covered are those whose code
      points are below 256.  The character classes of [str.strip],
      [str.isdigit] and [int] are the ones CPython uses on that range.
    - Decoded data are the values [json.loads] produces (and the raw text
      the request layer passes on when decoding fails): [None], [bool],
      [int], [float], [str], [list], and [dict] with [str] keys.  The
      decoder builds no tuple, so [isinstance(obj, (list, tuple))] is
      "is a list".
    - A call either returns a value or raises; the four exception classes
      that the code can meet are kept apart because the [except] clauses
      of the source name them.  Limits of the machine (recursion depth,
      memory) are left out.
    - Two behaviours of the builtins changed between interpreter versions
      (whether a slice can be hashed, and the length limit of [int] on
      decimal strings); they are fields of [Runtime], and every general
      theorem holds for all runtimes.
    - The code is embedded twice: over values, which is the model most
      properties are stated on, and over a store of mutable cells, which
      is where reading and writing can be told apart; the second is proved
      to compute what the first computes. *)

From Stdlib Require Import String Ascii List ZArith Lia Bool Arith DecimalString.
From Equations Require Import Equations.
Import ListNotations.

Set Warnings "-register-all".
Local Open Scope string_scope.
Local Open Scope list_scope.
Local Open Scope Z_scope.

(** ** Characters and strings *)

Definition code (c : ascii) : nat := nat_of_ascii c.

Definition in_range (lo hi : nat) (c : ascii) : bool :=
  (Nat.leb lo (code c) && Nat.leb (code c) hi)%bool.

(** The characters [str.strip()] removes and [str.isspace()] accepts:
    TAB..CR, FS..US, SPACE, NEL (0x85) and NBSP (0xA0). *)
Definition is_space (c : ascii) : bool :=
  (in_range 9 13 c || in_range 28 32 c
   || Nat.eqb (code c) 133 || Nat.eqb (code c) 160)%bool.

(** The white space [int()] skips around a literal: the same, without
    FS..US. *)
Definition is_int_space (c : ascii) : bool :=
  (in_range 9 13 c || Nat.eqb (code c) 32
   || Nat.eqb (code c) 133 || Nat.eqb (code c) 160)%bool.

(** ['0'..'9']. *)
Definition is_decimal (c : ascii) : bool := in_range 48 57 c.

(** [str.isdigit()] per character: the decimal digits and the superscripts
    two, three and one (0xB2, 0xB3, 0xB9), which [int()] refuses. *)
Definition is_digit_char (c : ascii) : bool :=
  (is_decimal c || Nat.eqb (code c) 178 || Nat.eqb (code c) 179
   || Nat.eqb (code c) 185)%bool.

Definition is_empty (s : string) : bool :=
  match s with EmptyString => true | String _ _ => false end.

Fixpoint all_chars (p : ascii -> bool) (s : string) : bool :=
  match s with
  | EmptyString => true
  | String c s' => (p c && all_chars p s')%bool
  end.

(** [c in s]. *)
Fixpoint contains (c : ascii) (s : string) : bool :=
  match s with
  | EmptyString => false
  | String d s' => (Ascii.eqb d c || contains c s')%bool
  end.

(** [s.isdigit()]: at least one character, all of them digits. *)
Definition isdigit (s : string) : bool :=
  (negb (is_empty s) && all_chars is_digit_char s)%bool.

Fixpoint lstrip (ws : ascii -> bool) (s : string) : string :=
  match s with
  | EmptyString => EmptyString
  | String c s' => if ws c then lstrip ws s' else s
  end.

Fixpoint rstrip (ws : ascii -> bool) (s : string) : string :=
  match s with
  | EmptyString => EmptyString
  | String c s' =>
      match rstrip ws s' with
      | EmptyString => if ws c then EmptyString else String c EmptyString
      | r => String c r
      end
  end.

(** [s.strip()]. *)
Definition strip (s : string) : string := rstrip is_space (lstrip is_space s).

(** [s.split(sep)] for a one-character separator, as the first piece and
    the pieces after it: the result of [split] is never empty. *)
Fixpoint split_pieces (sep : ascii) (s : string) : string * list string :=
  match s with
  | EmptyString => (EmptyString, [])
  | String c s' =>
      let (p, ps) := split_pieces sep s' in
      if Ascii.eqb c sep then (EmptyString, p :: ps) else (String c p, ps)
  end.

Definition split (sep : ascii) (s : string) : list string :=
  let (p, ps) := split_pieces sep s in p :: ps.

(** ** The pattern [index_pattern = re.compile(r'\[(.*?)\]')] *)

Definition newline : ascii := ascii_of_nat 10.

(** From just after a ['['], the lazy [(.*?)] followed by [\]]: the text up
    to the first [']'], unless a newline (which [.] does not match) comes
    first. *)
Fixpoint scan_group (s : string) : option string :=
  match s with
  | EmptyString => None
  | String c s' =>
      if Ascii.eqb c "]" then Some EmptyString
      else if Ascii.eqb c newline then None
      else option_map (String c) (scan_group s')
  end.

(** [index_pattern.search(s)]: the leftmost match, returned as
    [(s[:match.start()], match.group(1))]. *)
Fixpoint index_search (s : string) : option (string * string) :=
  match s with
  | EmptyString => None
  | String c s' =>
      match (if Ascii.eqb c "[" then scan_group s' else None) with
      | Some g => Some (EmptyString, g)
      | None =>
          match index_search s' with
          | Some (pre, g) => Some (String c pre, g)
          | None => None
          end
      end
  end.

(** ** Decoded values *)

Inductive Value : Type :=
| VNone
| VBool (b : bool)
| VInt (n : Z)
| VFloat (bits : Z)          (* an IEEE-754 double, by its bit pattern *)
| VStr (s : string)
| VList (items : list Value)
| VDict (entries : list (string * Value)).
(* The keys of a decoded object are distinct; [lookup] below takes the
   first entry of a key. *)

(** ** Outcomes of a call *)

Inductive exn : Type := KeyError | IndexError | ValueError | TypeError.

Inductive result (A : Type) : Type :=
| Ok (a : A)
| Raise (e : exn).
Arguments Ok {A} a.
Arguments Raise {A} e.

Definition bind {A B} (m : result A) (k : A -> result B) : result B :=
  match m with
  | Ok a => k a
  | Raise e => Raise e
  end.

Notation "x <- m ;; k" := (bind m (fun x => k))
  (at level 61, m at next level, right associativity).

Definition exn_eqb (a b : exn) : bool :=
  match a, b with
  | KeyError, KeyError | IndexError, IndexError
  | ValueError, ValueError | TypeError, TypeError => true
  | _, _ => false
  end.

(** [try: body  except (handled): return None]. *)
Definition try_except (handled : list exn) (body : result Value) : result Value :=
  match body with
  | Ok v => Ok v
  | Raise e => if existsb (exn_eqb e) handled then Ok VNone else Raise e
  end.

(** ** The interpreter *)

Record Runtime : Type := {
  (** slices are hashable from Python 3.12 on: [d[a:b:c]] on a dict then
      raises [KeyError] instead of [TypeError] *)
  slice_hashable : bool;
  (** [sys.get_int_max_str_digits()]; [0] switches the limit off, as do the
      interpreters that predate it *)
  int_max_str_digits : nat
}.

Definition cpython : Runtime :=
  {| slice_hashable := true; int_max_str_digits := 4300 |}.

(** ** Builtins the resolver calls *)

Definition digit_value (c : ascii) : Z := Z.of_nat (code c - 48).

(** The digit part of a decimal literal, [digit ("_"? digit)*], read left
    to right: the value and the number of digits.  [prev] tells whether
    the character just read was a digit. *)
Fixpoint int_digits (s : string) (prev : bool) (acc : Z) (n : nat)
  : option (Z * nat) :=
  match s with
  | EmptyString => if prev then Some (acc, n) else None
  | String c s' =>
      if is_decimal c then int_digits s' true (10 * acc + digit_value c) (S n)
      else if Ascii.eqb c "_" then
        (if prev then int_digits s' false acc n else None)
      else None
  end.

Definition too_many_digits (rt : Runtime) (n : nat) : bool :=
  (Nat.ltb 640 n && Nat.ltb 0 (int_max_str_digits rt)
   && Nat.ltb (int_max_str_digits rt) n)%bool.

(** [int(s)] on a [str], base 10; [None] stands for [ValueError]. *)
Definition parse_int (rt : Runtime) (s : string) : option Z :=
  let t := rstrip is_int_space (lstrip is_int_space s) in
  let (negative, body) :=
    match t with
    | String "+"%char b => (false, b)
    | String "-"%char b => (true, b)
    | _ => (false, t)
    end in
  match int_digits body false 0 0 with
  | Some (v, n) =>
      if too_many_digits rt n then None
      else Some (if negative then - v else v)
  | None => None
  end.

Definition py_int (rt : Runtime) (s : string) : result Z :=
  match parse_int rt s with
  | Some z => Ok z
  | None => Raise ValueError
  end.

(** [l[i]] on a sequence of length [len]: [None] stands for [IndexError]. *)
Definition list_item {A} (l : list A) (i : Z) : option A :=
  let len := Z.of_nat (length l) in
  let j := if i <? 0 then i + len else i in
  if ((0 <=? j) && (j <? len))%bool then nth_error l (Z.to_nat j) else None.

(** The bounds of [l[start:stop:step]] once clipped to the sequence
    (CPython's [PySlice_AdjustIndices]). *)
Definition adjust_index (len step i : Z) : Z :=
  if i <? 0 then
    (if i + len <? 0 then (if step <? 0 then -1 else 0) else i + len)
  else if len <=? i then (if step <? 0 then len - 1 else len)
  else i.

Definition slice_length (start stop step : Z) : Z :=
  if step <? 0 then
    (if stop <? start then (start - stop - 1) / (- step) + 1 else 0)
  else (if start <? stop then (stop - start - 1) / step + 1 else 0).

(** [l[start:stop:step]] for [step <> 0]. *)
Definition py_slice {A} (l : list A) (start stop step : Z) : list A :=
  let len := Z.of_nat (length l) in
  let first := adjust_index len step start in
  let last := adjust_index len step stop in
  flat_map
    (fun k => match nth_error l (Z.to_nat (first + Z.of_nat k * step)) with
              | Some x => [x]
              | None => []
              end)
    (seq 0 (Z.to_nat (slice_length first last step))).

(** The one-character strings a [str] yields when indexed or iterated. *)
Definition chars (s : string) : list Value :=
  map (fun c => VStr (String c EmptyString)) (list_ascii_of_string s).

Fixpoint lookup (entries : list (string * Value)) (key : string)
  : option Value :=
  match entries with
  | [] => None
  | (k, v) :: rest => if String.eqb k key then Some v else lookup rest key
  end.

(** [obj[key]] guarded by [isinstance(obj, dict) and key in obj]. *)
Definition dict_get (obj : Value) (key : string) : option Value :=
  match obj with
  | VDict entries => lookup entries key
  | _ => None
  end.

Definition is_none (obj : Value) : bool :=
  match obj with VNone => true | _ => false end.

(** [isinstance(obj, (list, tuple))]. *)
Definition is_list (obj : Value) : bool :=
  match obj with VList _ => true | _ => false end.

(** [obj[idx]] for an [int] index. *)
Definition subscript (obj : Value) (idx : Z) : result Value :=
  match obj with
  | VList items =>
      match list_item items idx with
      | Some v => Ok v
      | None => Raise IndexError
      end
  | VStr s =>
      match list_item (chars s) idx with
      | Some v => Ok v
      | None => Raise IndexError
      end
  | VDict _ => Raise KeyError      (* the keys of a decoded object are str *)
  | _ => Raise TypeError
  end.

(** [len(obj)]. *)
Definition py_len (obj : Value) : result Z :=
  match obj with
  | VList items => Ok (Z.of_nat (length items))
  | VStr s => Ok (Z.of_nat (String.length s))
  | VDict entries => Ok (Z.of_nat (length entries))
  | _ => Raise TypeError
  end.

(** The items [for item in obj[start:end:step]] runs over. *)
Definition slice_items (rt : Runtime) (obj : Value) (start stop step : Z)
  : result (list Value) :=
  match obj with
  | VList items =>
      if step =? 0 then Raise ValueError
      else Ok (py_slice items start stop step)
  | VStr s =>
      if step =? 0 then Raise ValueError
      else Ok (py_slice (chars s) start stop step)
  | VDict _ => Raise (if slice_hashable rt then KeyError else TypeError)
  | _ => Raise TypeError
  end.

(** [int(indices[k]) if len(indices) > k and indices[k] else default]. *)
Definition slice_bound (rt : Runtime) (indices : list string) (k : nat)
  (default : result Z) : result Z :=
  match nth_error indices k with
  | Some s => if is_empty s then default else py_int rt s
  | None => default
  end.

(** The loop shared by the wildcard and the slice:
[[
    for item in items:
        result = resolve_path(item, remaining)
        if isinstance(result, list): results.extend(result)
        else: results.append(result)
]]
    [results] is the list built so far. *)
Fixpoint expand (resolve : Value -> result Value) (items : list Value)
  (results : list Value) : result (list Value) :=
  match items with
  | [] => Ok results
  | item :: rest =>
      r <- resolve item ;;
      expand resolve rest
        (match r with
         | VList l => results ++ l
         | _ => results ++ [r]
         end)
  end.

(** Lines 35-39: the field in front of a bracket.
[[
    if field:
        if isinstance(obj, dict) and field in obj: obj = obj[field]
        elif isinstance(obj, (list, tuple)) and field.isdigit():
            obj = obj[int(field)]
]] *)
Definition descend (rt : Runtime) (field : string) (obj : Value)
  : result Value :=
  if is_empty field then Ok obj
  else
    match dict_get obj field with
    | Some v => Ok v
    | None =>
        if (is_list obj && isdigit field)%bool then
          idx <- py_int rt field ;; subscript obj idx
        else Ok obj
    end.

(** ** [resolve_path] *)

Fixpoint dots (s : string) : nat :=
  match s with
  | EmptyString => 0
  | String c s' => (if Ascii.eqb c "." then 1 else 0) + dots s'
  end.

(** What decreases along the recursion: a segment counts for one, and for
    two more per dot it still holds. *)
Fixpoint weight (parts : list string) : nat :=
  match parts with
  | [] => 0
  | p :: ps => 1 + 2 * dots p + weight ps
  end.

Equations? resolve_path (rt : Runtime) (obj : Value) (parts : list string)
  : result Value by wf (weight parts) lt :=
resolve_path rt obj [] := Ok obj;
resolve_path rt obj (current :: remaining) :=
  if is_none obj then Ok obj
  else
    match index_search current with
    | Some (prefix, index_expr) =>
        let field := strip prefix in
        obj <- descend rt field obj ;;
        if String.eqb index_expr "*" then
          match obj with
          | VList items =>
              results <-
                expand (fun item => resolve_path rt item remaining) items [] ;;
              Ok (VList results)
          | _ => Ok VNone
          end
        else if contains ":" index_expr then
          let indices := split ":" index_expr in
          try_except [ValueError; TypeError]
            (start <- slice_bound rt indices 0 (Ok 0) ;;
             stop <- slice_bound rt indices 1 (py_len obj) ;;
             step <- slice_bound rt indices 2 (Ok 1) ;;
             items <- slice_items rt obj start stop step ;;
             results <-
               expand (fun item => resolve_path rt item remaining) items [] ;;
             Ok (VList results))
        else
          try_except [ValueError; TypeError; IndexError]
            (idx <- py_int rt index_expr ;;
             item <- subscript obj idx ;;
             resolve_path rt item remaining)
    | None =>
        match dict_get obj current with
        | Some v => resolve_path rt v remaining
        | None =>
            if (is_list obj && isdigit current)%bool then
              try_except [ValueError; IndexError]
                (idx <- py_int rt current ;;
                 item <- subscript obj idx ;;
                 resolve_path rt item remaining)
            else
              match bool_dec (contains "." current) true with
              | left _ =>
                  let sub_paths := split "." current in
                  resolve_path rt obj (sub_paths ++ remaining)
              | right _ => Ok VNone
              end
        end
    end.
Proof.
  all: try (simpl; lia).
  (* the fallback: [current] holds a dot, its pieces hold none *)
  assert (Hdot : forall s, contains "." s = true -> (0 < dots s)%nat).
  { induction s as [|c s IH]; simpl; [discriminate|].
    destruct (Ascii.eqb c "."); simpl; [lia|exact IH]. }
  assert (Happ : forall a b, weight (a ++ b) = (weight a + weight b)%nat).
  { induction a as [|p a IH]; simpl; intros; [reflexivity|rewrite IH; lia]. }
  assert (Hsplit : forall s, weight (split "." s) = S (dots s)).
  { intros s. unfold split.
    assert (H : let (p, ps) := split_pieces "." s in
                dots p = 0%nat /\ weight ps = dots s).
    { induction s as [|c s IH]; simpl; [auto|].
      destruct (split_pieces "." s) as [p ps]. destruct IH as [Hp Hw].
      destruct (Ascii.eqb c ".") eqn:E; simpl; rewrite ?E; simpl; split; lia. }
    destruct (split_pieces "." s) as [p ps]. simpl. lia. }
  subst sub_paths. rewrite Happ, Hsplit.
  specialize (Hdot current ltac:(assumption)). lia.
Qed.

(** ** [parse_response] *)

(** [[part.strip() for part in path.split('.') if part.strip()]]. *)
Definition tokenize (path : string) : list string :=
  filter (fun part => negb (is_empty part)) (map strip (split "." path)).

(** [paths: Union[str, List[str]]]. *)
Inductive Paths : Type :=
| PathStr (path : string)
| PathList (paths : list string).

(** The list comprehension of the batch branch: the results in order, or
    the first exception met. *)
Fixpoint comprehension {A B} (f : A -> result B) (l : list A)
  : result (list B) :=
  match l with
  | [] => Ok []
  | x :: rest =>
      y <- f x ;;
      ys <- comprehension f rest ;;
      Ok (y :: ys)
  end.

Definition parse_response (rt : Runtime) (data : Value) (paths : Paths)
  : result Value :=
  match paths with
  | PathStr path => resolve_path rt data (tokenize path)
  | PathList ps =>
      results <- comprehension (fun p => resolve_path rt data (tokenize p)) ps ;;
      Ok (VList results)
  end.

(** ** What the claims are stated with *)

(** What one per-element result adds to the output of an expansion: the
    elements of a list, or the result itself. *)
Definition splice (r : Value) : list Value :=
  match r with
  | VList l => l
  | _ => [r]
  end.

Definition dot_or_space (c : ascii) : bool :=
  (Ascii.eqb c "." || is_space c)%bool.

(** One bound of a slice expression: its default when the text is absent
    or empty, the integer it denotes otherwise, [None] when it denotes
    none. *)
Definition bound_of (rt : Runtime) (text : option string) (default : Z)
  : option Z :=
  match text with
  | Some s => if is_empty s then Some default else parse_int rt s
  | None => Some default
  end.

(** The three bounds of [index_expr] over a sequence of [len] items:
    [start] defaults to [0], [end] to [len], [step] to [1]. *)
Definition slice_bounds (rt : Runtime) (index_expr : string) (len : Z)
  : option (Z * Z * Z) :=
  let indices := split ":" index_expr in
  match bound_of rt (nth_error indices 0) 0,
        bound_of rt (nth_error indices 1) len,
        bound_of rt (nth_error indices 2) 1 with
  | Some start, Some stop, Some step => Some (start, stop, step)
  | _, _, _ => None
  end.

(** A slice bound brought into the sequence, as the language reference
    words it: a negative bound counts from the end, and the outcome is
    clipped to [0 .. len] when the step is positive, to [-1 .. len - 1]
    when it is negative. *)
Definition clip_bound (len step i : Z) : Z :=
  let j := if i <? 0 then i + len else i in
  if 0 <? step then Z.max 0 (Z.min len j) else Z.max (-1) (Z.min (len - 1) j).

(** Whether position [i] still lies before [last] in the direction of
    [step]. *)
Definition before_end (step last i : Z) : bool :=
  if 0 <? step then i <? last else last <? i.

(** All the keys of all the objects of a value are free of dots. *)
Fixpoint dotless_keys (v : Value) : bool :=
  match v with
  | VList items => forallb dotless_keys items
  | VDict entries =>
      forallb (fun kv => negb (contains "." (fst kv)) && dotless_keys (snd kv))%bool
        entries
  | _ => true
  end.

(** A segment that the tokenizer would leave as it is, were it split on
    dots: its pieces are trimmed and none is empty; and a segment with a
    dot has no bracket. *)
Definition presplit_ok (part : string) : Prop :=
  split "." part = tokenize part
  /\ (contains "." part = true -> index_search part = None).

(** ** The resolver over a store

    The same two functions once more, with the objects where Python keeps
    them: a list or a dict is a cell of the store, known by its address,
    and what the code holds are references.  [results.extend] and
    [results.append] write to the store, [results = []] allocates, and
    [for item in obj] reads the list it runs over again at every step.
    This is the model that says what "the input is only read" means. *)

Definition loc : Type := nat.

(** What a variable holds: an immutable scalar, or the address of a list
    or dict. *)
Inductive ref : Type :=
| RNone
| RBool (b : bool)
| RInt (n : Z)
| RFloat (bits : Z)
| RStr (s : string)
| RObj (l : loc).

Inductive cell : Type :=
| CList (items : list ref)
| CDict (entries : list (string * ref)).

(** The store: the cell of address [l] is the one at position [l]; a new
    cell goes to the end. *)
Definition heap : Type := list cell.

Fixpoint update (h : heap) (l : loc) (c : cell) : heap :=
  match h, l with
  | [], _ => []
  | _ :: rest, O => c :: rest
  | c0 :: rest, S l' => c0 :: update rest l' c
  end.

Definition read_list (h : heap) (x : ref) : option (list ref) :=
  match x with
  | RObj l =>
      match nth_error h l with
      | Some (CList items) => Some items
      | _ => None
      end
  | _ => None
  end.

Definition read_dict (h : heap) (x : ref) : option (list (string * ref)) :=
  match x with
  | RObj l =>
      match nth_error h l with
      | Some (CDict entries) => Some entries
      | _ => None
      end
  | _ => None
  end.

Definition is_rnone (x : ref) : bool :=
  match x with RNone => true | _ => false end.

(** [isinstance(x, (list, tuple))]. *)
Definition h_is_list (h : heap) (x : ref) : bool :=
  match read_list h x with Some _ => true | None => false end.

Fixpoint h_lookup (entries : list (string * ref)) (key : string)
  : option ref :=
  match entries with
  | [] => None
  | (k, x) :: rest => if String.eqb k key then Some x else h_lookup rest key
  end.

(** [x[key]] guarded by [isinstance(x, dict) and key in x]. *)
Definition h_dict_get (h : heap) (x : ref) (key : string) : option ref :=
  match read_dict h x with
  | Some entries => h_lookup entries key
  | None => None
  end.

Definition h_chars (s : string) : list ref :=
  map (fun c => RStr (String c EmptyString)) (list_ascii_of_string s).

(** [x[idx]] for an [int] index. *)
Definition h_subscript (h : heap) (x : ref) (idx : Z) : result ref :=
  match x with
  | RStr s =>
      match list_item (h_chars s) idx with
      | Some y => Ok y
      | None => Raise IndexError
      end
  | RObj l =>
      match nth_error h l with
      | Some (CList items) =>
          match list_item items idx with
          | Some y => Ok y
          | None => Raise IndexError
          end
      | Some (CDict _) => Raise KeyError
      | None => Raise TypeError
      end
  | _ => Raise TypeError
  end.

(** [len(x)]. *)
Definition h_len (h : heap) (x : ref) : result Z :=
  match x with
  | RStr s => Ok (Z.of_nat (String.length s))
  | RObj l =>
      match nth_error h l with
      | Some (CList items) => Ok (Z.of_nat (length items))
      | Some (CDict entries) => Ok (Z.of_nat (length entries))
      | None => Raise TypeError
      end
  | _ => Raise TypeError
  end.

(** The items of [x[start:end:step]]: a new sequence, which only the loop
    that runs over it holds. *)
Definition h_slice_items (rt : Runtime) (h : heap) (x : ref)
  (start stop step : Z) : result (list ref) :=
  match x with
  | RStr s =>
      if step =? 0 then Raise ValueError
      else Ok (py_slice (h_chars s) start stop step)
  | RObj l =>
      match nth_error h l with
      | Some (CList items) =>
          if step =? 0 then Raise ValueError
          else Ok (py_slice items start stop step)
      | Some (CDict _) =>
          Raise (if slice_hashable rt then KeyError else TypeError)
      | None => Raise TypeError
      end
  | _ => Raise TypeError
  end.

(** Lines 35-39 over the store. *)
Definition h_descend (rt : Runtime) (h : heap) (field : string) (x : ref)
  : result ref :=
  if is_empty field then Ok x
  else
    match h_dict_get h x field with
    | Some y => Ok y
    | None =>
        if (h_is_list h x && isdigit field)%bool then
          idx <- py_int rt field ;; h_subscript h x idx
        else Ok x
    end.

(** [results.extend(result)] when [result] is a list, [results.append(result)]
    otherwise: the one write of the resolver, to the cell of [results]. *)
Definition h_collect (results : loc) (r : ref) (h : heap) : heap :=
  match read_list h (RObj results) with
  | Some sofar =>
      match read_list h r with
      | Some xs => update h results (CList (sofar ++ xs))
      | None => update h results (CList (sofar ++ [r]))
      end
  | None => h
  end.

(** [for item in items: body], [items] being a sequence of the loop's
    own. *)
Fixpoint h_for_items (body : ref -> heap -> result unit * heap)
  (items : list ref) (h : heap) : result unit * heap :=
  match items with
  | [] => (Ok tt, h)
  | item :: rest =>
      let (r, h1) := body item h in
      match r with
      | Ok _ => h_for_items body rest h1
      | Raise e => (Raise e, h1)
      end
  end.

(** [for item in obj: body], [obj] being the list at address [src]: the
    iterator keeps a position [i], and at every step reads the list in the
    store as it then is.  [n] bounds the number of steps and is the length
    of the list when the loop starts; as the body leaves that list alone
    ([h_for_each_spec]), the iterator is at the end of the list when the
    bound is reached. *)
Fixpoint h_for_each (body : ref -> heap -> result unit * heap)
  (src : loc) (i n : nat) (h : heap) : result unit * heap :=
  match n with
  | O => (Ok tt, h)
  | S n' =>
      match read_list h (RObj src) with
      | Some items =>
          match nth_error items i with
          | Some item =>
              let (r, h1) := body item h in
              match r with
              | Ok _ => h_for_each body src (S i) n' h1
              | Raise e => (Raise e, h1)
              end
          | None => (Ok tt, h)
          end
      | None => (Ok tt, h)
      end
  end.

(** One turn of the loop of lines 48-53 and 64-69. *)
Definition h_turn (resolve : ref -> heap -> result ref * heap)
  (results : loc) (item : ref) (h : heap) : result unit * heap :=
  let (r, h1) := resolve item h in
  match r with
  | Ok x => (Ok tt, h_collect results x h1)
  | Raise e => (Raise e, h1)
  end.

(** [try: ... except (handled): return None], the store kept as the body
    left it. *)
Definition h_try (handled : list exn) (body : result ref * heap)
  : result ref * heap :=
  let (r, h) := body in
  match r with
  | Ok x => (Ok x, h)
  | Raise e => if existsb (exn_eqb e) handled then (Ok RNone, h) else (Raise e, h)
  end.

Equations? resolve_path_h (rt : Runtime) (obj : ref) (parts : list string)
  (h : heap) : result ref * heap by wf (weight parts) lt :=
resolve_path_h rt obj [] h := (Ok obj, h);
resolve_path_h rt obj (current :: remaining) h :=
  if is_rnone obj then (Ok obj, h)
  else
    match index_search current with
    | Some (prefix, index_expr) =>
        let field := strip prefix in
        match h_descend rt h field obj with
        | Raise e => (Raise e, h)
        | Ok obj =>
            if String.eqb index_expr "*" then
              match read_list h obj, obj with
              | Some items, RObj src =>
                  let results := length h in
                  let h := h ++ [CList []] in
                  let (r, h) :=
                    h_for_each
                      (h_turn (fun item h => resolve_path_h rt item remaining h)
                         results)
                      src 0 (length items) h in
                  match r with
                  | Ok _ => (Ok (RObj results), h)
                  | Raise e => (Raise e, h)
                  end
              | _, _ => (Ok RNone, h)
              end
            else if contains ":" index_expr then
              let indices := split ":" index_expr in
              h_try [ValueError; TypeError]
                (match
                   (start <- slice_bound rt indices 0 (Ok 0) ;;
                    stop <- slice_bound rt indices 1 (h_len h obj) ;;
                    step <- slice_bound rt indices 2 (Ok 1) ;;
                    Ok (start, stop, step))
                 with
                 | Raise e => (Raise e, h)
                 | Ok (start, stop, step) =>
                     let results := length h in
                     let h := h ++ [CList []] in
                     match h_slice_items rt h obj start stop step with
                     | Raise e => (Raise e, h)
                     | Ok items =>
                         let (r, h) :=
                           h_for_items
                             (h_turn
                                (fun item h =>
                                   resolve_path_h rt item remaining h)
                                results)
                             items h in
                         match r with
                         | Ok _ => (Ok (RObj results), h)
                         | Raise e => (Raise e, h)
                         end
                     end
                 end)
            else
              h_try [ValueError; TypeError; IndexError]
                (match (idx <- py_int rt index_expr ;; h_subscript h obj idx) with
                 | Raise e => (Raise e, h)
                 | Ok item => resolve_path_h rt item remaining h
                 end)
        end
    | None =>
        match h_dict_get h obj current with
        | Some x => resolve_path_h rt x remaining h
        | None =>
            if (h_is_list h obj && isdigit current)%bool then
              h_try [ValueError; IndexError]
                (match (idx <- py_int rt current ;; h_subscript h obj idx) with
                 | Raise e => (Raise e, h)
                 | Ok item => resolve_path_h rt item remaining h
                 end)
            else
              match bool_dec (contains "." current) true with
              | left _ =>
                  let sub_paths := split "." current in
                  resolve_path_h rt obj (sub_paths ++ remaining) h
              | right _ => (Ok RNone, h)
              end
        end
    end.
Proof.
  all: try (simpl; lia).
  assert (Hdot : forall s, contains "." s = true -> (0 < dots s)%nat).
  { induction s as [|c s IH]; simpl; [discriminate|].
    destruct (Ascii.eqb c "."); simpl; [lia|exact IH]. }
  assert (Happ : forall a b, weight (a ++ b) = (weight a + weight b)%nat).
  { induction a as [|p a IH]; simpl; intros; [reflexivity|rewrite IH; lia]. }
  assert (Hsplit : forall s, weight (split "." s) = S (dots s)).
  { intros s. unfold split.
    assert (H : let (p, ps) := split_pieces "." s in
                dots p = 0%nat /\ weight ps = dots s).
    { induction s as [|c s IH]; simpl; [auto|].
      destruct (split_pieces "." s) as [p ps]. destruct IH as [Hp Hw].
      destruct (Ascii.eqb c ".") eqn:E; simpl; rewrite ?E; simpl; split; lia. }
    destruct (split_pieces "." s) as [p ps]. simpl. lia. }
  subst sub_paths. rewrite Happ, Hsplit.
  specialize (Hdot current ltac:(assumption)). lia.
Qed.

(** The list comprehension of the batch branch over the store: the
    references the paths yield, in a new list. *)
Fixpoint h_comprehension (f : string -> heap -> result ref * heap)
  (paths : list string) (h : heap) : result (list ref) * heap :=
  match paths with
  | [] => (Ok [], h)
  | p :: rest =>
      let (r, h1) := f p h in
      match r with
      | Raise e => (Raise e, h1)
      | Ok x =>
          let (rs, h2) := h_comprehension f rest h1 in
          match rs with
          | Raise e => (Raise e, h2)
          | Ok xs => (Ok (x :: xs), h2)
          end
      end
  end.

Definition parse_response_h (rt : Runtime) (data : ref) (paths : Paths)
  (h : heap) : result ref * heap :=
  match paths with
  | PathStr path => resolve_path_h rt data (tokenize path) h
  | PathList ps =>
      let (rs, h1) :=
        h_comprehension (fun p h => resolve_path_h rt data (tokenize p) h)
          ps h in
      match rs with
      | Raise e => (Raise e, h1)
      | Ok xs => (Ok (RObj (length h1)), h1 ++ [CList xs])
      end
  end.

(** A reference [x] stands for the value [v] in the store [h], through
    cells whose addresses are not in [avoid]. *)
Inductive repr (h : heap) (avoid : loc -> Prop) : ref -> Value -> Prop :=
| repr_none : repr h avoid RNone VNone
| repr_bool b : repr h avoid (RBool b) (VBool b)
| repr_int n : repr h avoid (RInt n) (VInt n)
| repr_float bits : repr h avoid (RFloat bits) (VFloat bits)
| repr_str s : repr h avoid (RStr s) (VStr s)
| repr_list l items vs :
    ~ avoid l ->
    nth_error h l = Some (CList items) ->
    Forall2 (repr h avoid) items vs ->
    repr h avoid (RObj l) (VList vs)
| repr_dict l entries ventries :
    ~ avoid l ->
    nth_error h l = Some (CDict entries) ->
    Forall2 (fun e ve => fst e = fst ve /\ repr h avoid (snd e) (snd ve))
      entries ventries ->
    repr h avoid (RObj l) (VDict ventries).

Definition nowhere : loc -> Prop := fun _ => False.

(** Two outcomes are alike: the same exception, or results that [R]
    relates. *)
Definition same_result {X Y} (R : X -> Y -> Prop) (r : result X)
  (o : result Y) : Prop :=
  match r, o with
  | Ok x, Ok y => R x y
  | Raise e, Raise e' => e = e'
  | _, _ => False
  end.

Definition same_option {X Y} (R : X -> Y -> Prop) (r : option X)
  (o : option Y) : Prop :=
  match r, o with
  | Some x, Some y => R x y
  | None, None => True
  | _, _ => False
  end.

(** The outcome [r] of a run over the store, which ended in [h], is the
    outcome [o] of the run over values. *)
Definition same_outcome (h : heap) (avoid : loc -> Prop) (r : result ref)
  (o : result Value) : Prop :=
  same_result (repr h avoid) r o.

(** Every cell of [h] is in [h'], at its address and as it was. *)
Definition preserved (h h' : heap) : Prop :=
  forall l : loc, (l < length h)%nat -> nth_error h' l = nth_error h l.

(** Every cell of [h] but the one at [a] is in [h'] as it was, and [h'] is
    no shorter. *)
Definition preserved_but (a : loc) (h h' : heap) : Prop :=
  (length h <= length h')%nat
  /\ forall l : loc, (l < length h)%nat -> l <> a ->
                     nth_error h' l = nth_error h l.

(** What a loop that started in [h] leaves: the cells but the one of
    [results] as they were, and in that one the output [o] of the loop
    over values. *)
Definition loop_post (A : loc -> Prop) (results : loc) (h : heap)
  (out : result unit * heap) (o : result (list Value)) : Prop :=
  preserved_but results h (snd out)
  /\ match o with
     | Raise e => fst out = Raise e
     | Ok final =>
         fst out = Ok tt
         /\ exists rout,
             nth_error (snd out) results = Some (CList rout)
             /\ Forall2 (repr (snd out) A) rout final
     end.

(** A run over the store that started in [h] and gave [out] wrote to no
    cell of [h], and its outcome is [o]. *)
Definition refines (A : loc -> Prop) (h : heap) (out : result ref * heap)
  (o : result Value) : Prop :=
  preserved h (snd out) /\ same_outcome (snd out) A (fst out) o.

(** ** [handle_response] *)

(** What [handle_response] reads of the [aiohttp.ClientResponse]: the
    attributes [ok], [status] and [reason] (the latter as an f-string
    prints it), and [content], the text [await response.text()] gave. *)
Record Response : Type := {
  ok : bool;
  status : Z;
  reason : string;
  content : string
}.

(** The two literals of the error message of lines 156 and 158 (the text
    in front of the status, and the newline and text in front of the
    detail): their characters lie outside the strings of this model, so
    they are taken as given. *)
Record Texts : Type := {
  status_text : string;
  detail_text : string
}.

(** How [json.loads] ends on the body: with the decoded value, with
    [json.JSONDecodeError], or with another exception, which the [except]
    of line 164 does not name (the [ValueError] of an integer literal
    longer than the interpreter's digit limit). *)
Inductive decoding : Type :=
| Decoded (v : Value)
| NotJson
| Refused (e : exn).

(** How a call of [handle_response] ends: it returns a value, or an
    exception of the decoder or of the resolver passes through it, or it
    raises the [RuntimeError] of line 159. *)
Inductive reply : Type :=
| Returned (v : Value)
| Escaped (e : exn)
| RuntimeError (message : string).

(** [s[:n]]. *)
Fixpoint take (n : nat) (s : string) : string :=
  match n, s with
  | S n', String c s' => String c (take n' s')
  | _, _ => EmptyString
  end.

(** [f"{n}"] for an [int]. *)
Definition decimal (n : Z) : string := NilZero.string_of_int (Z.to_int n).

(** [not paths], for [paths: Optional[Union[str, List[str]]]]: [None], the
    empty string and the empty list. *)
Definition no_paths (paths : option Paths) : bool :=
  match paths with
  | None => true
  | Some (PathStr path) => is_empty path
  | Some (PathList []) => true
  | Some (PathList (_ :: _)) => false
  end.

(** Lines 155-159: the message of a response that is not [ok]. *)
Definition error_msg (texts : Texts) (response : Response) : string :=
  (status_text texts ++ decimal (status response) ++ " " ++ reason response
   ++ (if is_empty (content response) then EmptyString
       else detail_text texts ++ take 200 (content response) ++ "..."))%string.

(** [handle_response]; [loads] is [json.loads]. *)
Definition handle_response (texts : Texts) (loads : string -> decoding)
  (rt : Runtime) (response : Response) (paths : option Paths) : reply :=
  if negb (ok response) then RuntimeError (error_msg texts response)
  else
    match
      match loads (content response) with
      | Decoded v => Ok v
      | NotJson => Ok (VStr (content response))
      | Refused e => Raise e
      end
    with
    | Raise e => Escaped e
    | Ok data =>
        match paths with
        | None => Returned data
        | Some p =>
            if no_paths paths then Returned data
            else
              match parse_response rt data p with
              | Ok v => Returned v
              | Raise e => Escaped e
              end
        end
    end.

(** [bool], [int] and [float]: the values with nothing inside. *)
Definition is_number (obj : Value) : bool :=
  match obj with
  | VBool _ | VInt _ | VFloat _ => true
  | _ => false
  end.

(** A string that does not start with white space: [lstrip] leaves it
    alone, and [rstrip] keeps its first character. *)
Definition starts_clean (ws : ascii -> bool) (s : string) : Prop :=
  match s with
  | EmptyString => True
  | String c _ => ws c = false
  end.

(** No path asked has a ['[']. *)
Definition plain_paths (paths : option Paths) : Prop :=
  match paths with
  | None => True
  | Some (PathStr path) => contains "[" path = false
  | Some (PathList ps) => Forall (fun path => contains "[" path = false) ps
  end.

(** Nothing is asked: no path, the empty list of paths, or a path of dots
    and white space only. *)
Definition asks_nothing (paths : option Paths) : Prop :=
  match paths with
  | None => True
  | Some (PathStr path) => all_chars dot_or_space path = true
  | Some (PathList ps) => ps = []
  end.

(** The superscript two (U+00B2): a digit for [str.isdigit], no digit for
    [int]. *)
Definition superscript_two : ascii := ascii_of_nat 178.

(** The path made of [parts], a dot after each. *)
Fixpoint dotted (parts : list string) : string :=
  match parts with
  | [] => EmptyString
  | q :: rest => (q ++ "." ++ dotted rest)%string
  end.

(** * Properties *)

(** ** Strings *)

Lemma lstrip_blank (s : string) :
  all_chars is_space s = true -> lstrip is_space s = EmptyString.
Proof.
  induction s as [|c s IH]; simpl; [reflexivity|].
  intros H. apply andb_true_iff in H as [Hc Hs]. rewrite Hc. auto.
Qed.

Lemma strip_blank (s : string) :
  all_chars is_space s = true -> strip s = EmptyString.
Proof. intros H. unfold strip. rewrite (lstrip_blank s H). reflexivity. Qed.

Lemma split_pieces_blank (s : string) :
  all_chars dot_or_space s = true ->
  let (p, ps) := split_pieces "." s in
  all_chars is_space p = true /\ Forall (fun q => all_chars is_space q = true) ps.
Proof.
  induction s as [|c s IH]; simpl; [auto|].
  intros H. apply andb_true_iff in H as [Hc Hs].
  specialize (IH Hs). destruct (split_pieces "." s) as [p ps].
  destruct IH as [Hp Hps]. unfold dot_or_space in Hc.
  destruct (Ascii.eqb c ".") eqn:E; simpl in *.
  - split; [reflexivity|]. constructor; assumption.
  - rewrite Hc, Hp. split; [reflexivity|assumption].
Qed.

Lemma tokenize_blank (path : string) :
  all_chars dot_or_space path = true -> tokenize path = [].
Proof.
  intros H. unfold tokenize, split.
  pose proof (split_pieces_blank path H) as Hs.
  destruct (split_pieces "." path) as [p ps]. destruct Hs as [Hp Hps].
  simpl. rewrite (strip_blank p Hp). simpl.
  induction Hps as [|q qs Hq _ IH]; simpl; [reflexivity|].
  rewrite (strip_blank q Hq). simpl. exact IH.
Qed.

(** ** The resolver, one step at a time *)

Lemma resolve_path_none (rt : Runtime) (parts : list string) :
  resolve_path rt VNone parts = Ok VNone.
Proof.
  destruct parts as [|current remaining]; simp resolve_path; reflexivity.
Qed.

(** ** C7 *)

(** C7. Base case of the resolver: when no segment is left, or when the
    current value is [None], [resolve_path] returns the current value as it
    is.  [None] is returned as a result, not as an error, also when it is
    met in the middle of a path with segments still to go. *)
Theorem resolve_path_base_case (rt : Runtime) (obj : Value)
  (parts : list string) :
  parts = [] \/ obj = VNone -> resolve_path rt obj parts = Ok obj.
Proof.
  intros [-> | ->].
  - simp resolve_path. reflexivity.
  - apply resolve_path_none.
Qed.

Lemma resolve_path_base_case_witness :
  (["b"; "c[0]"] = [] \/ VNone = VNone) /\
  resolve_path cpython VNone ["b"; "c[0]"] = Ok VNone.
Proof.
  split; [right; reflexivity|].
  apply (resolve_path_base_case cpython VNone ["b"; "c[0]"]).
  right; reflexivity.
Defined.

(** A null met in the middle of a path: ["a.b.c"] over [{"a": None}]. *)
Example null_mid_path (rt : Runtime) :
  parse_response rt (VDict [("a", VNone)]) (PathStr "a.b.c") = Ok VNone.
Proof. vm_compute. reflexivity. Qed.

(** ** C10 *)

(** C10. A path string that is empty, or made of dots and white space
    only, has no segment; the entry point then returns the whole input
    value, unchanged. *)
Theorem blank_path_returns_data (rt : Runtime) (data : Value)
  (path : string) :
  all_chars dot_or_space path = true ->
  tokenize path = [] /\ parse_response rt data (PathStr path) = Ok data.
Proof.
  intros H. pose proof (tokenize_blank path H) as Ht.
  split; [exact Ht|]. simpl. rewrite Ht. simp resolve_path. reflexivity.
Qed.

Lemma blank_path_returns_data_witness :
  all_chars dot_or_space " . .. " = true /\
  tokenize " . .. " = [] /\
  parse_response cpython (VList [VInt 1; VStr "x"]) (PathStr " . .. ")
  = Ok (VList [VInt 1; VStr "x"]).
Proof.
  split; [reflexivity|].
  apply (blank_path_returns_data cpython (VList [VInt 1; VStr "x"]) " . .. ").
  reflexivity.
Defined.

(** ** C1 *)

(** C1. The resolver does let exceptions out.  [obj[idx]] on a decoded
    object raises [KeyError], which the [except] clause of the single
    index does not name, and the field in front of a bracket is indexed
    into a list outside any [try]. *)
Theorem resolve_path_lets_exceptions_out (rt : Runtime) :
  parse_response rt (VDict [("a", VInt 1)]) (PathStr "[0]") = Raise KeyError
  /\ parse_response rt (VList [VInt 1; VInt 2; VInt 3]) (PathStr "5[0]")
     = Raise IndexError
  /\ parse_response rt (VList [VInt 1; VInt 2; VInt 3]) (PathStr "5")
     = Ok VNone.
Proof. repeat split; vm_compute; reflexivity. Qed.

(** ** The expansion loop *)

Lemma expand_all_ok (f : Value -> result Value) (items rs acc : list Value) :
  Forall2 (fun item r => f item = Ok r) items rs ->
  expand f items acc = Ok (acc ++ flat_map splice rs).
Proof.
  intros H. revert acc.
  induction H as [|item r items rs Hr _ IH]; intros acc; simpl.
  - rewrite app_nil_r. reflexivity.
  - rewrite Hr. simpl. rewrite app_assoc.
    destruct r; simpl; apply IH.
Qed.

Lemma expand_ext (f g : Value -> result Value) (items acc : list Value) :
  (forall item, In item items -> f item = g item) ->
  expand f items acc = expand g items acc.
Proof.
  revert acc. induction items as [|x items IH]; intros acc H; simpl;
    [reflexivity|].
  rewrite (H x (or_introl eq_refl)).
  destruct (g x) as [r|e]; simpl; [|reflexivity].
  apply IH. intros item Hin. apply H. right. exact Hin.
Qed.

Lemma descend_list_not_none (rt : Runtime) (field : string) (obj : Value)
  (items : list Value) :
  descend rt field obj = Ok (VList items) -> is_none obj = false.
Proof.
  destruct obj; try reflexivity.
  unfold descend. destruct (is_empty field); discriminate.
Qed.


(** A wildcard segment over a list, when every element resolves. *)
Lemma resolve_wildcard (rt : Runtime) (obj : Value) (current prefix : string)
  (items rs : list Value) (remaining : list string) :
  index_search current = Some (prefix, "*") ->
  descend rt (strip prefix) obj = Ok (VList items) ->
  Forall2 (fun item r => resolve_path rt item remaining = Ok r) items rs ->
  resolve_path rt obj (current :: remaining) = Ok (VList (flat_map splice rs)).
Proof.
  intros Hs Hd Hrs. simp resolve_path.
  rewrite (descend_list_not_none rt _ _ _ Hd), Hs. cbn zeta.
  rewrite Hd. simpl.
  rewrite (expand_all_ok _ items rs [] Hrs). reflexivity.
Qed.

(** ** C2 *)

(** C2, as the code has it.  The wildcard splices every per-element result
    that is a list, whether or not a tail follows: ["[*]"] over
    [[[1,2],[3,4]]] is [[1,2,3,4]], and ["[*].x"] over
    [[{"x":1},{"x":2}]] is [[1,2]].  In general the output is the
    per-element results in order, the elements of a list result in place
    of the list, any other result as one entry. *)
Theorem wildcard_splices_each_result (rt : Runtime) :
  parse_response rt
    (VList [VList [VInt 1; VInt 2]; VList [VInt 3; VInt 4]]) (PathStr "[*]")
  = Ok (VList [VInt 1; VInt 2; VInt 3; VInt 4])
  /\ parse_response rt
       (VList [VDict [("x", VInt 1)]; VDict [("x", VInt 2)]]) (PathStr "[*].x")
     = Ok (VList [VInt 1; VInt 2])
  /\ forall (obj : Value) (current prefix : string) (items rs : list Value)
       (remaining : list string),
       index_search current = Some (prefix, "*") ->
       descend rt (strip prefix) obj = Ok (VList items) ->
       Forall2 (fun item r => resolve_path rt item remaining = Ok r) items rs ->
       resolve_path rt obj (current :: remaining)
       = Ok (VList (flat_map splice rs)).
Proof.
  split; [vm_compute; reflexivity|].
  split; [vm_compute; reflexivity|].
  intros. eapply resolve_wildcard; eassumption.
Qed.

Lemma wildcard_splices_each_result_witness :
  resolve_path cpython
    (VDict [("rows", VList [VList [VInt 1]; VInt 2; VNone])])
    ["rows[*]"]
  = Ok (VList [VInt 1; VInt 2; VNone]).
Proof.
  refine (proj2 (proj2 (wildcard_splices_each_result cpython))
            (VDict [("rows", VList [VList [VInt 1]; VInt 2; VNone])])
            "rows[*]" "rows" [VList [VInt 1]; VInt 2; VNone]
            [VList [VInt 1]; VInt 2; VNone] [] _ _ _).
  - reflexivity.
  - reflexivity.
  - repeat constructor.
Defined.

(** C2, as the claim has it, fails: with no tail the inner lists are not
    kept. *)
Lemma wildcard_without_tail_flattens :
  parse_response cpython
    (VList [VList [VInt 1; VInt 2]; VList [VInt 3; VInt 4]]) (PathStr "[*]")
  <> Ok (VList [VList [VInt 1; VInt 2]; VList [VInt 3; VInt 4]]).
Proof. vm_compute. discriminate. Qed.

(** ** C6 *)

Lemma comprehension_ok {A B} (f : A -> result B) (l : list A) (ys : list B) :
  comprehension f l = Ok ys <-> Forall2 (fun x y => f x = Ok y) l ys.
Proof.
  revert ys. induction l as [|x l IH]; intros ys; simpl.
  - split.
    + intros H. injection H as <-. constructor.
    + intros H. inversion H. reflexivity.
  - split.
    + destruct (f x) as [y|e] eqn:Hx; simpl; [|discriminate].
      destruct (comprehension f l) as [zs|e] eqn:Hl; simpl; [|discriminate].
      intros H. injection H as <-. constructor; [exact Hx|].
      apply IH. reflexivity.
    + intros H. inversion H as [|x' y l' zs Hx Hl]; subst.
      rewrite Hx. simpl. apply IH in Hl. rewrite Hl. reflexivity.
Qed.

(** As long as every path returns, the entry point keeps shape and order.
    For one path string it returns what the resolver returns, unwrapped.
    For a list of path strings it returns a list with one entry per path,
    in the order of the paths, and each entry is what that path yields on
    its own; an entry that is [None] sits among the others without
    changing them. *)
Theorem parse_response_keeps_shape_and_order (rt : Runtime) (data : Value) :
  (forall path : string,
      parse_response rt data (PathStr path)
      = resolve_path rt data (tokenize path))
  /\ (forall (paths : list string) (vs : list Value),
         Forall2 (fun p v => parse_response rt data (PathStr p) = Ok v) paths vs ->
         parse_response rt data (PathList paths) = Ok (VList vs))
  /\ (forall (paths : list string) (out : Value),
         parse_response rt data (PathList paths) = Ok out ->
         exists vs : list Value,
           out = VList vs /\ length vs = length paths /\
           Forall2 (fun p v => parse_response rt data (PathStr p) = Ok v)
             paths vs).
Proof.
  split; [reflexivity|]. split.
  - intros paths vs H. simpl.
    apply (comprehension_ok (fun p => resolve_path rt data (tokenize p))) in H.
    rewrite H. reflexivity.
  - intros paths out H. simpl in H.
    destruct (comprehension (fun p => resolve_path rt data (tokenize p)) paths)
      as [vs|e] eqn:Hc; simpl in H; [|discriminate].
    injection H as <-. exists vs. split; [reflexivity|].
    apply comprehension_ok in Hc. split; [|exact Hc].
    symmetry. eapply Forall2_length. exact Hc.
Qed.

Lemma parse_response_keeps_shape_and_order_witness :
  parse_response cpython (VDict [("a", VInt 1); ("b", VInt 2)])
    (PathList ["a"; "x.y"; "b"])
  = Ok (VList [VInt 1; VNone; VInt 2]).
Proof.
  refine (proj1 (proj2 (parse_response_keeps_shape_and_order cpython
                          (VDict [("a", VInt 1); ("b", VInt 2)])))
            ["a"; "x.y"; "b"] [VInt 1; VNone; VInt 2] _).
  repeat constructor.
Defined.

(** C6. The batch does not always come back with one entry per path: a
    path that raises makes the comprehension of lines 107-108 raise, and
    the results of its siblings are lost.  Over [{"a": 1}] the paths
    [["a", "[0]"]] end in [KeyError], although ["a"] alone yields [1] and
    the batch should be [[1, None]]. *)
Theorem batch_is_lost_when_a_path_raises (rt : Runtime) :
  parse_response rt (VDict [("a", VInt 1)]) (PathList ["a"; "[0]"])
  = Raise KeyError
  /\ parse_response rt (VDict [("a", VInt 1)]) (PathStr "a") = Ok (VInt 1)
  /\ parse_response rt (VDict [("a", VInt 1)]) (PathStr "[0]") = Raise KeyError
  /\ parse_response rt (VDict [("a", VInt 1)]) (PathList ["a"; "x"])
     = Ok (VList [VInt 1; VNone]).
Proof. repeat split; vm_compute; reflexivity. Qed.

(** ** Slices *)

Lemma adjust_index_clip (len step i : Z) :
  0 <= len -> step <> 0 -> adjust_index len step i = clip_bound len step i.
Proof.
  intros Hlen Hstep. unfold adjust_index, clip_bound.
  destruct (Z.ltb_spec i 0); destruct (Z.ltb_spec (i + len) 0);
    destruct (Z.ltb_spec step 0); destruct (Z.ltb_spec 0 step);
    destruct (Z.leb_spec len i); lia.
Qed.

Lemma div_bracket (d s : Z) :
  0 < s -> s * (d / s) <= d < s * (d / s) + s.
Proof.
  intros Hs. pose proof (Z.div_mod d s ltac:(lia)).
  pose proof (Z.mod_pos_bound d s Hs). lia.
Qed.

Lemma slice_length_spec (first last step : Z) (k : nat) :
  step <> 0 ->
  (Z.of_nat k < slice_length first last step
   <-> before_end step last (first + Z.of_nat k * step) = true).
Proof.
  intros Hstep. unfold slice_length, before_end.
  pose proof (Nat2Z.is_nonneg k) as Hk.
  destruct (Z.ltb_spec step 0) as [Hneg|Hpos].
  - destruct (Z.ltb_spec 0 step); [lia|].
    pose proof (div_bracket (first - last - 1) (- step) ltac:(lia)) as Hd.
    destruct (Z.ltb_spec last first);
      destruct (Z.ltb_spec last (first + Z.of_nat k * step));
      split; intros; try reflexivity; try discriminate; nia.
  - destruct (Z.ltb_spec 0 step); [|lia].
    pose proof (div_bracket (last - first - 1) step ltac:(lia)) as Hd.
    destruct (Z.ltb_spec first last);
      destruct (Z.ltb_spec (first + Z.of_nat k * step) last);
      split; intros; try reflexivity; try discriminate; nia.
Qed.

Lemma clip_bound_range (len step i : Z) :
  0 <= len -> step <> 0 ->
  (0 < step -> 0 <= clip_bound len step i <= len) /\
  (step < 0 -> -1 <= clip_bound len step i <= len - 1).
Proof.
  intros Hlen Hstep. unfold clip_bound.
  destruct (Z.ltb_spec i 0); destruct (Z.ltb_spec 0 step); lia.
Qed.

Lemma nth_error_pick {A} (g : nat -> option A) (count n : nat) :
  (forall k, (k < count)%nat -> g k <> None) ->
  nth_error
    (flat_map (fun k => match g k with Some x => [x] | None => [] end)
       (seq 0 count)) n
  = if Nat.ltb n count then g n else None.
Proof.
  intros Hg.
  assert (Hlen : forall c, (c <= count)%nat ->
    length (flat_map (fun k => match g k with Some x => [x] | None => [] end)
              (seq 0 c)) = c).
  { induction c as [|c IH]; intros Hc; [reflexivity|].
    rewrite seq_S, flat_map_app, length_app, IH by lia. simpl.
    destruct (g c) eqn:E; [simpl; lia|]. exfalso. apply (Hg c); [lia|exact E]. }
  assert (Hgen : forall c, (c <= count)%nat ->
    nth_error
      (flat_map (fun k => match g k with Some x => [x] | None => [] end)
         (seq 0 c)) n
    = if Nat.ltb n c then g n else None).
  { induction c as [|c IH]; intros Hc.
    - simpl. destruct n; reflexivity.
    - rewrite seq_S, flat_map_app. simpl.
      destruct (Nat.ltb_spec n c) as [Hlt|Hge].
      + rewrite nth_error_app1 by (rewrite Hlen by lia; exact Hlt).
        rewrite IH by lia.
        destruct (Nat.ltb_spec n c); [|lia].
        destruct (Nat.ltb_spec n (S c)); [reflexivity|lia].
      + rewrite nth_error_app2 by (rewrite Hlen by lia; exact Hge).
        rewrite Hlen by lia.
        destruct (g c) eqn:E; [|exfalso; apply (Hg c); [lia|exact E]].
        rewrite app_nil_r.
        destruct (Nat.ltb_spec n (S c)) as [Hlt'|Hge'].
        * assert (n = c) by lia. subst n. rewrite Nat.sub_diag. simpl.
          symmetry. exact E.
        * destruct (n - c)%nat as [|m] eqn:Em; [lia|]. simpl.
          destruct m; reflexivity. }
  apply Hgen. lia.
Qed.

(** What [l[start:stop:step]] holds at position [n]: the item of [l] at
    [first + n * step], as long as that index lies before [last]; [first]
    and [last] are the bounds brought into the sequence. *)
Lemma py_slice_nth {A} (l : list A) (start stop step : Z) (n : nat) :
  step <> 0 ->
  let len := Z.of_nat (length l) in
  let first := clip_bound len step start in
  let last := clip_bound len step stop in
  let i := first + Z.of_nat n * step in
  nth_error (py_slice l start stop step) n
  = if before_end step last i then nth_error l (Z.to_nat i) else None.
Proof.
  intros Hstep len first last i. unfold py_slice.
  pose proof (Nat2Z.is_nonneg (length l)) as Hlen. fold len in Hlen.
  rewrite !(adjust_index_clip _ _ _ Hlen Hstep). fold len first last.
  pose proof (clip_bound_range len step start Hlen Hstep) as [Hf1 Hf2].
  pose proof (clip_bound_range len step stop Hlen Hstep) as [Hl1 Hl2].
  fold first in Hf1, Hf2. fold last in Hl1, Hl2.
  assert (Hin : forall k : nat,
             before_end step last (first + Z.of_nat k * step) = true ->
             0 <= first + Z.of_nat k * step < len).
  { intros k Hk. unfold before_end in Hk.
    pose proof (Nat2Z.is_nonneg k).
    destruct (Z.ltb_spec 0 step).
    - apply Z.ltb_lt in Hk. nia.
    - apply Z.ltb_lt in Hk. nia. }
  rewrite (nth_error_pick
             (fun k => nth_error l (Z.to_nat (first + Z.of_nat k * step)))).
  - fold i. destruct (Nat.ltb_spec n (Z.to_nat (slice_length first last step)))
      as [Hlt|Hge].
    + assert (Z.of_nat n < slice_length first last step) as Hz by lia.
      apply (slice_length_spec first last step n Hstep) in Hz.
      fold i in Hz. rewrite Hz. reflexivity.
    + destruct (before_end step last i) eqn:Hb; [|reflexivity].
      apply (slice_length_spec first last step n Hstep) in Hb. lia.
  - intros k Hk.
    assert (Z.of_nat k < slice_length first last step) as Hz by lia.
    apply (slice_length_spec first last step k Hstep) in Hz.
    apply Hin in Hz. apply nth_error_Some. unfold len in Hz. lia.
Qed.

Lemma contains_colon_not_star (e : string) :
  contains ":" e = true -> String.eqb e "*" = false.
Proof.
  intros H. destruct (String.eqb_spec e "*") as [->|]; [|reflexivity].
  discriminate H.
Qed.

Lemma slice_bound_of (rt : Runtime) (indices : list string) (k : nat)
  (default : Z) :
  slice_bound rt indices k (Ok default)
  = match bound_of rt (nth_error indices k) default with
    | Some z => Ok z
    | None => Raise ValueError
    end.
Proof.
  unfold slice_bound, bound_of, py_int.
  destruct (nth_error indices k) as [s|]; [|reflexivity].
  destruct (is_empty s); [reflexivity|].
  destruct (parse_int rt s); reflexivity.
Qed.

(** A slice segment over a list. *)
Lemma resolve_slice (rt : Runtime) (obj : Value)
  (current prefix index_expr : string) (items : list Value)
  (remaining : list string) :
  index_search current = Some (prefix, index_expr) ->
  contains ":" index_expr = true ->
  descend rt (strip prefix) obj = Ok (VList items) ->
  resolve_path rt obj (current :: remaining)
  = match slice_bounds rt index_expr (Z.of_nat (length items)) with
    | None => Ok VNone
    | Some (start, stop, step) =>
        if step =? 0 then Ok VNone
        else
          try_except [ValueError; TypeError]
            (results <-
               expand (fun item => resolve_path rt item remaining)
                 (py_slice items start stop step) [] ;;
             Ok (VList results))
    end.
Proof.
  intros Hs Hc Hd. simp resolve_path.
  rewrite (descend_list_not_none rt _ _ _ Hd), Hs. cbn zeta.
  rewrite Hd. cbn [bind].
  rewrite (contains_colon_not_star _ Hc), Hc.
  cbn [py_len]. rewrite !slice_bound_of. unfold slice_bounds.
  destruct (bound_of rt (nth_error (split ":" index_expr) 0) 0)
    as [start|]; [|reflexivity].
  destruct (bound_of rt (nth_error (split ":" index_expr) 1) _)
    as [stop|]; [|reflexivity].
  destruct (bound_of rt (nth_error (split ":" index_expr) 2) 1)
    as [step|]; [|reflexivity].
  cbn [bind slice_items]. destruct (step =? 0); reflexivity.
Qed.

(** ** C3 *)

(** C3. A slice segment over a list reads its bounds with the defaults
    [start = 0], [end = len], [step = 1]; it yields [None] as soon as a
    bound that is present denotes no integer (and when the step is zero,
    which the slice operator refuses); otherwise it runs over
    [items[start:end:step]], whose item at position [n] is the item of the
    list at [first + n * step] for as long as that index lies before
    [last], negative bounds counting from the end, and splices the results
    of the tail.  ["[1:3]"] over [[10,20,30,40,50]] is [[20,30]] and
    ["[::2]"] is [[10,30,50]]. *)
Theorem slice_segment_semantics (rt : Runtime) :
  (forall (obj : Value) (current prefix index_expr : string)
          (items : list Value) (remaining : list string),
      index_search current = Some (prefix, index_expr) ->
      contains ":" index_expr = true ->
      descend rt (strip prefix) obj = Ok (VList items) ->
      match slice_bounds rt index_expr (Z.of_nat (length items)) with
      | None => resolve_path rt obj (current :: remaining) = Ok VNone
      | Some (start, stop, step) =>
          (step = 0 -> resolve_path rt obj (current :: remaining) = Ok VNone)
          /\ (step <> 0 ->
              forall rs : list Value,
                Forall2 (fun item r => resolve_path rt item remaining = Ok r)
                  (py_slice items start stop step) rs ->
                resolve_path rt obj (current :: remaining)
                = Ok (VList (flat_map splice rs)))
      end)
  /\ (forall (items : list Value) (start stop step : Z) (n : nat),
         step <> 0 ->
         let len := Z.of_nat (length items) in
         let i := clip_bound len step start + Z.of_nat n * step in
         nth_error (py_slice items start stop step) n
         = if before_end step (clip_bound len step stop) i
           then nth_error items (Z.to_nat i) else None)
  /\ slice_bounds rt "1:3" 5 = Some (1, 3, 1)
  /\ slice_bounds rt "::2" 5 = Some (0, 5, 2)
  /\ parse_response rt
       (VList [VInt 10; VInt 20; VInt 30; VInt 40; VInt 50]) (PathStr "[1:3]")
     = Ok (VList [VInt 20; VInt 30])
  /\ parse_response rt
       (VList [VInt 10; VInt 20; VInt 30; VInt 40; VInt 50]) (PathStr "[::2]")
     = Ok (VList [VInt 10; VInt 30; VInt 50]).
Proof.
  split; [|split; [|repeat split; vm_compute; reflexivity]].
  - intros obj current prefix index_expr items remaining Hs Hc Hd.
    rewrite (resolve_slice rt obj current prefix index_expr items remaining
               Hs Hc Hd).
    destruct (slice_bounds rt index_expr (Z.of_nat (length items)))
      as [[[start stop] step]|]; [|reflexivity].
    split.
    + intros ->. reflexivity.
    + intros Hstep rs Hrs. destruct (Z.eqb_spec step 0); [contradiction|].
      rewrite (expand_all_ok _ _ rs [] Hrs). reflexivity.
  - intros items start stop step n Hstep.
    apply (py_slice_nth items start stop step n Hstep).
Qed.

Lemma slice_segment_semantics_witness :
  resolve_path cpython
    (VDict [("v", VList [VInt 0; VInt 1; VInt 2; VInt 3; VInt 4; VInt 5])])
    ["v[-2:0:-2]"]
  = Ok (VList [VInt 4; VInt 2])
  /\ nth_error
       (py_slice [VInt 0; VInt 1; VInt 2; VInt 3; VInt 4; VInt 5] (-2) 0 (-2))
       1
     = Some (VInt 2).
Proof.
  split.
  - refine (proj2 (proj1 (slice_segment_semantics cpython)
              (VDict [("v", VList [VInt 0; VInt 1; VInt 2; VInt 3; VInt 4;
                                   VInt 5])])
              "v[-2:0:-2]" "v" "-2:0:-2"
              [VInt 0; VInt 1; VInt 2; VInt 3; VInt 4; VInt 5] [] _ _ _)
              _ [VInt 4; VInt 2] _).
    + reflexivity.
    + reflexivity.
    + reflexivity.
    + discriminate.
    + repeat constructor.
  - refine (proj1 (proj2 (slice_segment_semantics cpython))
              [VInt 0; VInt 1; VInt 2; VInt 3; VInt 4; VInt 5] (-2) 0 (-2) 1%nat
              _).
    discriminate.
Defined.

(** A bound that is no integer, a zero step, the defaults under a
    negative step (which select nothing), and negative bounds. *)
Example slice_edge_cases (rt : Runtime) :
  parse_response rt (VList [VInt 10; VInt 20; VInt 30])
    (PathList ["[a:b]"; "[::0]"; "[::-1]"; "[-1:-4:-1]"; "[-2:]"])
  = Ok (VList [VNone; VNone; VList [];
               VList [VInt 30; VInt 20; VInt 10]; VList [VInt 20; VInt 30]]).
Proof. vm_compute. reflexivity. Qed.

(** ** C9 *)



(** ** C5 *)

Lemma scan_group_again (s g : string) :
  scan_group s = Some g -> scan_group (g ++ "]")%string = Some g.
Proof.
  revert g. induction s as [|c s IH]; intros g; simpl; [discriminate|].
  destruct (Ascii.eqb c "]") eqn:E1.
  - intros H. injection H as <-. reflexivity.
  - destruct (Ascii.eqb c newline) eqn:E2; [discriminate|].
    destruct (scan_group s) as [g'|]; simpl; [|discriminate].
    intros H. injection H as <-. simpl. rewrite E1, E2.
    rewrite (IH g' eq_refl). reflexivity.
Qed.

(** The bracket of a segment, taken alone, is found again with an empty
    field in front of it. *)
Lemma index_search_bracket (s prefix g : string) :
  index_search s = Some (prefix, g) ->
  index_search ("[" ++ g ++ "]")%string = Some (EmptyString, g).
Proof.
  revert prefix. induction s as [|c s IH]; intros prefix; simpl;
    [discriminate|].
  destruct (if Ascii.eqb c "[" then scan_group s else None) as [g'|] eqn:E.
  - intros H. injection H as _ <-.
    destruct (Ascii.eqb c "["); [|discriminate].
    rewrite (scan_group_again s g' E). reflexivity.
  - destruct (index_search s) as [[pre g']|]; [|discriminate].
    intros H. injection H as _ <-. apply (IH pre). reflexivity.
Qed.

(** A bracketed segment whose field is not empty, met on a value that is
    neither an object holding that field nor a list with a field that
    [str.isdigit] accepts: the field is skipped, the value stays as it is,
    and the segment resolves as its bracket alone does on that value. *)
Theorem inapplicable_field_is_skipped (rt : Runtime) (obj : Value)
  (current prefix index_expr : string) (remaining : list string) :
  index_search current = Some (prefix, index_expr) ->
  strip prefix <> EmptyString ->
  dict_get obj (strip prefix) = None ->
  (is_list obj && isdigit (strip prefix))%bool = false ->
  descend rt (strip prefix) obj = Ok obj
  /\ resolve_path rt obj (current :: remaining)
     = resolve_path rt obj (("[" ++ index_expr ++ "]")%string :: remaining).
Proof.
  intros Hs Hne Hd Hl.
  assert (Hdesc : descend rt (strip prefix) obj = Ok obj).
  { unfold descend. rewrite Hd, Hl.
    destruct (is_empty (strip prefix)); reflexivity. }
  split; [exact Hdesc|].
  simp resolve_path.
  rewrite Hs, (index_search_bracket current prefix index_expr Hs).
  cbn zeta. rewrite Hdesc.
  replace (descend rt (strip EmptyString) obj) with (Ok obj) by reflexivity.
  reflexivity.
Qed.

Lemma inapplicable_field_is_skipped_witness :
  descend cpython (strip "rows") (VList [VInt 7; VInt 8]) =
  Ok (VList [VInt 7; VInt 8])
  /\ resolve_path cpython (VList [VInt 7; VInt 8]) ["rows[1]"]
     = resolve_path cpython (VList [VInt 7; VInt 8]) ["[1]"].
Proof.
  refine (inapplicable_field_is_skipped cpython (VList [VInt 7; VInt 8])
            "rows[1]" "rows" "1" [] _ _ _ _).
  - reflexivity.
  - discriminate.
  - reflexivity.
  - reflexivity.
Defined.

(** C5. The field in front of a bracket is not always skipped when it
    does not apply: on a list, a field that [str.isdigit] accepts and
    [int] refuses, such as the superscript two, reaches [int(field)] on
    line 39, outside any [try], and [ValueError] leaves the resolver.  The
    field is no integer literal, so the segment should resolve as its
    bracket alone, which yields [1] here. *)
Theorem superscript_field_raises (rt : Runtime) :
  isdigit (String superscript_two EmptyString) = true
  /\ parse_int rt (String superscript_two EmptyString) = None
  /\ parse_response rt (VList [VInt 1; VInt 2; VInt 3])
       (PathStr (String superscript_two "[0]"))
     = Raise ValueError
  /\ parse_response rt (VList [VInt 1; VInt 2; VInt 3]) (PathStr "[0]")
     = Ok (VInt 1)
  /\ parse_response rt (VList [VInt 1; VInt 2; VInt 3])
       (PathStr (String superscript_two EmptyString))
     = Ok VNone.
Proof. repeat split; vm_compute; reflexivity. Qed.

(** ** C4 *)

Lemma dots_contains (s : string) : contains "." s = true -> (0 < dots s)%nat.
Proof.
  induction s as [|c s IH]; simpl; [discriminate|].
  destruct (Ascii.eqb c "."); simpl; [lia|exact IH].
Qed.

Lemma weight_app (a b : list string) :
  weight (a ++ b) = (weight a + weight b)%nat.
Proof. induction a as [|p a IH]; simpl; [reflexivity|rewrite IH; lia]. Qed.

Lemma split_pieces_dotless (s : string) :
  let (p, ps) := split_pieces "." s in
  contains "." p = false /\ Forall (fun q => contains "." q = false) ps
  /\ dots p = 0%nat /\ weight ps = dots s.
Proof.
  induction s as [|c s IH]; simpl; [auto|].
  destruct (split_pieces "." s) as [p ps]. destruct IH as (Hp & Hps & Hd & Hw).
  destruct (Ascii.eqb c ".") eqn:E; simpl; rewrite ?E; simpl.
  - repeat split; auto. lia.
  - repeat split; auto.
Qed.

Lemma split_dotless (s : string) :
  Forall (fun q => contains "." q = false) (split "." s).
Proof.
  unfold split. pose proof (split_pieces_dotless s) as H.
  destruct (split_pieces "." s) as [p ps]. destruct H as (Hp & Hps & _).
  constructor; assumption.
Qed.

Lemma weight_split (s : string) : weight (split "." s) = S (dots s).
Proof.
  unfold split. pose proof (split_pieces_dotless s) as H.
  destruct (split_pieces "." s) as [p ps]. destruct H as (_ & _ & Hd & Hw).
  simpl. lia.
Qed.

Lemma split_no_dot (s : string) :
  contains "." s = false -> split "." s = [s].
Proof.
  unfold split. induction s as [|c s IH]; simpl; [reflexivity|].
  intros H. apply orb_false_iff in H as [Hc Hs]. specialize (IH Hs).
  destruct (split_pieces "." s) as [p ps]. rewrite Hc.
  injection IH as -> ->. reflexivity.
Qed.

(** The recursion of [resolve_path], as an induction on the segments: the
    calls are on the remaining segments, and on the pieces of a dotted
    segment put in front of them. *)
Lemma parts_induction (P : list string -> Prop) :
  P [] ->
  (forall current remaining,
      P remaining ->
      (contains "." current = true -> P (split "." current ++ remaining)) ->
      P (current :: remaining)) ->
  forall parts, P parts.
Proof.
  intros Hnil Hcons parts.
  remember (weight parts) as n eqn:Hn. revert parts Hn.
  induction n as [n IHn] using lt_wf_ind. intros parts ->.
  assert (IH : forall q, (weight q < weight parts)%nat -> P q).
  { intros q Hq. exact (IHn (weight q) Hq q eq_refl). }
  clear IHn.
  destruct parts as [|current remaining]; [exact Hnil|].
  apply Hcons.
  - apply IH. simpl. lia.
  - intros Hdot. apply IH. rewrite weight_app, weight_split. simpl.
    pose proof (dots_contains current Hdot). lia.
Qed.

Lemma dot_not_digit (s : string) : contains "." s = true -> isdigit s = false.
Proof.
  intros H. unfold isdigit. apply andb_false_iff. right.
  induction s as [|c s IH]; simpl in *; [discriminate|].
  destruct (Ascii.eqb_spec c ".") as [->|]; [reflexivity|].
  simpl in H. rewrite (IH H). apply andb_false_r.
Qed.

(** The fallback, one step: a dotted segment without a bracket, on a value
    that is not an object holding the segment as a key, is replaced by its
    pieces. *)
Lemma resolve_dotted (rt : Runtime) (obj : Value) (current : string)
  (remaining : list string) :
  index_search current = None ->
  contains "." current = true ->
  dict_get obj current = None ->
  resolve_path rt obj (current :: remaining)
  = resolve_path rt obj (split "." current ++ remaining).
Proof.
  intros Hs Hdot Hd. simp resolve_path. rewrite Hs, Hd.
  rewrite (dot_not_digit current Hdot), andb_false_r.
  destruct (is_none obj) eqn:Hn.
  - destruct obj; try discriminate. rewrite resolve_path_none. reflexivity.
  - destruct (bool_dec (contains "." current) true); [reflexivity|].
    contradiction.
Qed.

Lemma lookup_dotless (entries : list (string * Value)) (key : string)
  (v : Value) :
  dotless_keys (VDict entries) = true -> lookup entries key = Some v ->
  contains "." key = false /\ dotless_keys v = true.
Proof.
  induction entries as [|[k x] entries IH]; simpl; [discriminate|].
  intros H. apply andb_true_iff in H as [Hkx Hrest].
  apply andb_true_iff in Hkx as [Hk Hx]. simpl in Hk, Hx.
  destruct (String.eqb_spec k key) as [->|].
  - intros E. injection E as <-. split; [|exact Hx].
    destruct (contains "." key); [discriminate|reflexivity].
  - apply IH. exact Hrest.
Qed.

Lemma dict_get_dotless (obj : Value) (key : string) (v : Value) :
  dotless_keys obj = true -> dict_get obj key = Some v ->
  contains "." key = false /\ dotless_keys v = true.
Proof.
  destruct obj; simpl; try discriminate. apply lookup_dotless.
Qed.

Lemma list_item_In {A} (l : list A) (i : Z) (x : A) :
  list_item l i = Some x -> In x l.
Proof.
  unfold list_item.
  destruct (_ && _)%bool; [|discriminate]. apply nth_error_In.
Qed.

Lemma chars_dotless (s : string) :
  Forall (fun v => dotless_keys v = true) (chars s).
Proof.
  unfold chars. apply Forall_map. apply Forall_forall. reflexivity.
Qed.

Lemma items_dotless (items : list Value) :
  dotless_keys (VList items) = true ->
  Forall (fun v => dotless_keys v = true) items.
Proof. simpl. intros H. apply Forall_forall. apply forallb_forall. exact H. Qed.

Lemma subscript_dotless (obj : Value) (idx : Z) (v : Value) :
  dotless_keys obj = true -> subscript obj idx = Ok v -> dotless_keys v = true.
Proof.
  intros Hobj. destruct obj; simpl; try discriminate.
  - destruct (list_item (chars s) idx) as [x|] eqn:E; [|discriminate].
    intros H. injection H as <-. apply list_item_In in E.
    exact (proj1 (Forall_forall _ _) (chars_dotless s) x E).
  - destruct (list_item items idx) as [x|] eqn:E; [|discriminate].
    intros H. injection H as <-. apply list_item_In in E.
    exact (proj1 (Forall_forall _ _) (items_dotless items Hobj) x E).
Qed.

Lemma py_slice_incl {A} (l : list A) (start stop step : Z) (x : A) :
  In x (py_slice l start stop step) -> In x l.
Proof.
  unfold py_slice. intros H. apply in_flat_map in H as (k & _ & Hk).
  destruct (nth_error l _) as [y|] eqn:E; [|contradiction].
  destruct Hk as [<-|[]]. eapply nth_error_In. exact E.
Qed.

Lemma slice_items_dotless (rt : Runtime) (obj : Value) (start stop step : Z)
  (items : list Value) :
  dotless_keys obj = true -> slice_items rt obj start stop step = Ok items ->
  Forall (fun v => dotless_keys v = true) items.
Proof.
  intros Hobj. destruct obj; simpl; try discriminate.
  - destruct (step =? 0); [discriminate|]. intros H. injection H as <-.
    apply Forall_forall. intros x Hx. apply py_slice_incl in Hx.
    exact (proj1 (Forall_forall _ _) (chars_dotless s) x Hx).
  - destruct (step =? 0); [discriminate|]. intros H. injection H as <-.
    apply Forall_forall. intros x Hx. apply py_slice_incl in Hx.
    exact (proj1 (Forall_forall _ _) (items_dotless items0 Hobj) x Hx).
Qed.

Lemma descend_dotless (rt : Runtime) (field : string) (obj v : Value) :
  dotless_keys obj = true -> descend rt field obj = Ok v ->
  dotless_keys v = true.
Proof.
  intros Hobj. unfold descend.
  destruct (is_empty field); [intros H; injection H as <-; exact Hobj|].
  destruct (dict_get obj field) as [x|] eqn:E.
  - intros H. injection H as <-. exact (proj2 (dict_get_dotless _ _ _ Hobj E)).
  - destruct (is_list obj && isdigit field)%bool.
    + destruct (py_int rt field) as [idx|]; simpl; [|discriminate].
      apply subscript_dotless. exact Hobj.
    + intros H. injection H as <-. exact Hobj.
Qed.

Lemma expand_ext_dotless (f g : Value -> result Value) (items acc : list Value) :
  Forall (fun v => dotless_keys v = true) items ->
  (forall v, dotless_keys v = true -> f v = g v) ->
  expand f items acc = expand g items acc.
Proof.
  intros Hitems Hfg. apply expand_ext. intros item Hin. apply Hfg.
  exact (proj1 (Forall_forall _ _) Hitems item Hin).
Qed.

(** A segment without a dot resolves alike over two tails that resolve
    alike. *)
Lemma resolve_path_tail_ext (rt : Runtime) (obj : Value) (current : string)
  (r1 r2 : list string) :
  contains "." current = false ->
  dotless_keys obj = true ->
  (forall v, dotless_keys v = true ->
             resolve_path rt v r1 = resolve_path rt v r2) ->
  resolve_path rt obj (current :: r1) = resolve_path rt obj (current :: r2).
Proof.
  intros Hdot Hobj Htail. simp resolve_path.
  destruct (is_none obj); [reflexivity|].
  destruct (index_search current) as [[prefix index_expr]|].
  - cbn zeta. destruct (descend rt (strip prefix) obj) as [obj0|] eqn:Hd;
      [|reflexivity].
    pose proof (descend_dotless rt _ _ _ Hobj Hd) as Hobj0. cbn [bind].
    destruct (String.eqb index_expr "*").
    + destruct obj0; try reflexivity.
      rewrite (expand_ext_dotless _ (fun item => resolve_path rt item r2)
                 items [] (items_dotless items Hobj0) Htail).
      reflexivity.
    + destruct (contains ":" index_expr).
      * f_equal.
        destruct (slice_bound rt _ 0 _) as [start|]; [|reflexivity].
        destruct (slice_bound rt _ 1 _) as [stop|]; [|reflexivity].
        destruct (slice_bound rt _ 2 _) as [step|]; [|reflexivity].
        cbn [bind].
        destruct (slice_items rt obj0 start stop step) as [items|] eqn:Hi;
          [|reflexivity].
        cbn [bind].
        rewrite (expand_ext_dotless _ (fun item => resolve_path rt item r2)
                   items [] (slice_items_dotless rt _ _ _ _ _ Hobj0 Hi) Htail).
        reflexivity.
      * f_equal. destruct (py_int rt index_expr) as [idx|]; [|reflexivity].
        cbn [bind]. destruct (subscript obj0 idx) as [item|] eqn:Hi;
          [|reflexivity].
        cbn [bind]. apply Htail. exact (subscript_dotless _ _ _ Hobj0 Hi).
  - destruct (dict_get obj current) as [v|] eqn:Hv.
    + apply Htail. exact (proj2 (dict_get_dotless _ _ _ Hobj Hv)).
    + destruct (is_list obj && isdigit current)%bool.
      * f_equal. destruct (py_int rt current) as [idx|]; [|reflexivity].
        cbn [bind]. destruct (subscript obj idx) as [item|] eqn:Hi;
          [|reflexivity].
        cbn [bind]. apply Htail. exact (subscript_dotless _ _ _ Hobj Hi).
      * destruct (bool_dec (contains "." current) true) as [E|];
          [|reflexivity].
        rewrite Hdot in E. discriminate.
Qed.

Lemma filter_map_fixed {A} (f : A -> bool) (g : A -> A) (l : list A) :
  filter f (map g l) = l -> Forall (fun x => g x = x /\ f x = true) l.
Proof.
  induction l as [|x l IH]; simpl; [constructor|].
  destruct (f (g x)) eqn:E.
  - intros H. injection H as Hx Hl. constructor; [|exact (IH Hl)].
    rewrite Hx in E. split; assumption.
  - intros H. pose proof (filter_length_le f (map g l)) as Hlen.
    rewrite H, length_map in Hlen. simpl in Hlen. lia.
Qed.

Lemma tokenize_piece (q : string) :
  contains "." q = false -> strip q = q -> is_empty q = false ->
  tokenize q = [q].
Proof.
  intros Hdot Hs He. unfold tokenize. rewrite (split_no_dot q Hdot).
  simpl. rewrite Hs, He. reflexivity.
Qed.

(** The pieces of a well pre-split segment are themselves well pre-split,
    and tokenizing them gives them back. *)
Lemma presplit_pieces (part : string) :
  presplit_ok part ->
  Forall presplit_ok (split "." part)
  /\ flat_map tokenize (split "." part) = tokenize part.
Proof.
  intros [Hsplit _].
  assert (Hpieces : Forall (fun q => tokenize q = [q]) (split "." part)).
  { pose proof (split_dotless part) as Hd.
    pose proof Hsplit as Hfix.
    unfold tokenize in Hfix at 1. symmetry in Hfix.
    apply filter_map_fixed in Hfix.
    apply Forall_forall. intros q Hq.
    pose proof (proj1 (Forall_forall _ _) Hd q Hq) as Hqd.
    pose proof (proj1 (Forall_forall _ _) Hfix q Hq) as [Hqs Hqe].
    apply tokenize_piece; [exact Hqd|exact Hqs|].
    destruct (is_empty q); [discriminate|reflexivity]. }
  split.
  - pose proof (split_dotless part) as Hd.
    apply Forall_forall. intros q Hq. split.
    + rewrite (proj1 (Forall_forall _ _) Hpieces q Hq).
      apply split_no_dot. exact (proj1 (Forall_forall _ _) Hd q Hq).
    + rewrite (proj1 (Forall_forall _ _) Hd q Hq). discriminate.
  - rewrite <- Hsplit. clear Hsplit.
    induction Hpieces as [|q qs Hq _ IH]; simpl; [reflexivity|].
    rewrite Hq, IH. reflexivity.
Qed.

Lemma resolve_presplit (rt : Runtime) (parts : list string) :
  forall obj : Value,
    dotless_keys obj = true -> Forall presplit_ok parts ->
    resolve_path rt obj parts = resolve_path rt obj (flat_map tokenize parts).
Proof.
  induction parts as [|current remaining IHrem IHdot] using parts_induction;
    intros obj Hobj Hparts; [reflexivity|].
  inversion Hparts as [|? ? Hcur Hrem]; subst.
  destruct (contains "." current) eqn:Hdot.
  - (* the fallback *)
    destruct Hcur as [Hsplit Hnobr]. specialize (Hnobr Hdot).
    destruct (presplit_pieces current (conj Hsplit (fun _ => Hnobr)))
      as [Hok Htok].
    assert (Hget : dict_get obj current = None).
    { destruct (dict_get obj current) as [v|] eqn:E; [|reflexivity].
      apply (dict_get_dotless _ _ _ Hobj) in E as [E _]. congruence. }
    rewrite (resolve_dotted rt obj current remaining Hnobr Hdot Hget).
    rewrite (IHdot eq_refl obj Hobj) by (apply Forall_app; split; assumption).
    rewrite flat_map_app, Htok. reflexivity.
  - (* an ordinary segment *)
    destruct Hcur as [Hsplit _].
    rewrite (split_no_dot current Hdot) in Hsplit.
    cbn [flat_map]. rewrite <- Hsplit. cbn [app].
    apply resolve_path_tail_ext; [exact Hdot|exact Hobj|].
    intros v Hv. apply IHrem; assumption.
Qed.

(** C4, as the code has it.  The fallback replaces a dotted segment by its
    pieces, put in front of the remaining segments, when the segment has
    no bracket and the value is not an object that holds the whole segment
    as a key; the pieces are those of [split], neither trimmed nor
    filtered.  When no key of the value holds a dot, and every segment
    splits into trimmed, non-empty pieces and has no bracket next to a
    dot, resolving the segments as given and resolving the fully tokenized
    path agree. *)
Theorem resplit_agrees_with_tokenizing (rt : Runtime) :
  (forall (obj : Value) (current : string) (remaining : list string),
      index_search current = None ->
      contains "." current = true ->
      dict_get obj current = None ->
      resolve_path rt obj (current :: remaining)
      = resolve_path rt obj (split "." current ++ remaining))
  /\ (forall (obj : Value) (parts : list string),
         dotless_keys obj = true ->
         Forall presplit_ok parts ->
         resolve_path rt obj parts
         = resolve_path rt obj (flat_map tokenize parts)).
Proof.
  split.
  - apply resolve_dotted.
  - intros obj parts. apply resolve_presplit.
Qed.

Lemma resplit_agrees_with_tokenizing_witness :
  resolve_path cpython
    (VDict [("a", VDict [("b", VList [VInt 5; VInt 6])])]) ["a.b"; "[1]"]
  = resolve_path cpython
      (VDict [("a", VDict [("b", VList [VInt 5; VInt 6])])])
      (split "." "a.b" ++ ["[1]"])
  /\ resolve_path cpython
       (VDict [("a", VDict [("b", VList [VInt 5; VInt 6])])]) ["a.b"; "[1]"]
     = resolve_path cpython
         (VDict [("a", VDict [("b", VList [VInt 5; VInt 6])])])
         (flat_map tokenize ["a.b"; "[1]"]).
Proof.
  split.
  - refine (proj1 (resplit_agrees_with_tokenizing cpython)
              (VDict [("a", VDict [("b", VList [VInt 5; VInt 6])])])
              "a.b" ["[1]"] _ _ _); reflexivity.
  - refine (proj2 (resplit_agrees_with_tokenizing cpython)
              (VDict [("a", VDict [("b", VList [VInt 5; VInt 6])])])
              ["a.b"; "[1]"] _ _).
    + reflexivity.
    + repeat constructor; discriminate.
Defined.

(** C4, as the claim has it, fails in three ways: a dotted field in front
    of a bracket is never split; an object that holds the dotted segment
    as a key is read at that key; and the pieces are taken as they are,
    empty ones included. *)
Lemma resplit_differs_from_tokenizing :
  resolve_path cpython
    (VDict [("a", VDict [("b", VList [VInt 7])])]) ["a.b[0]"]
  <> resolve_path cpython
       (VDict [("a", VDict [("b", VList [VInt 7])])])
       (flat_map tokenize ["a.b[0]"])
  /\ resolve_path cpython
       (VDict [("a.b", VInt 1); ("a", VDict [("b", VInt 2)])]) ["a.b"]
     <> resolve_path cpython
          (VDict [("a.b", VInt 1); ("a", VDict [("b", VInt 2)])])
          (flat_map tokenize ["a.b"])
  /\ resolve_path cpython (VDict [("a", VDict [("b", VInt 1)])]) ["a..b"]
     <> resolve_path cpython (VDict [("a", VDict [("b", VInt 1)])])
          (flat_map tokenize ["a..b"]).
Proof. repeat split; vm_compute; discriminate. Qed.

(** The entry point never hands a dotted segment to the resolver. *)
Lemma tokenize_dotless (path : string) :
  Forall (fun part => contains "." part = false) (tokenize path).
Proof.
  unfold tokenize. apply Forall_forall. intros part Hin.
  apply filter_In in Hin as [Hin _]. apply in_map_iff in Hin as (q & <- & Hq).
  pose proof (proj1 (Forall_forall _ _) (split_dotless path) q Hq) as Hd.
  clear Hq. unfold strip.
  assert (Hl : forall s, contains "." s = false ->
                         contains "." (lstrip is_space s) = false).
  { induction s as [|c s IH]; simpl; [reflexivity|].
    intros H. destruct (is_space c); [|exact H].
    apply orb_false_iff in H as [_ H]. exact (IH H). }
  assert (Hr : forall s, contains "." s = false ->
                         contains "." (rstrip is_space s) = false).
  { induction s as [|c s IH]; simpl; [reflexivity|].
    intros H. apply orb_false_iff in H as [Hc H]. specialize (IH H).
    destruct (rstrip is_space s).
    - destruct (is_space c); simpl; [reflexivity|]. rewrite Hc. reflexivity.
    - simpl in *. rewrite Hc. exact IH. }
  apply Hr, Hl, Hd.
Qed.

(** ** Where exceptions can come from *)

Lemma scan_group_app (t u g : string) :
  scan_group t = Some g -> scan_group (t ++ u)%string = Some g.
Proof.
  revert g. induction t as [|c t IH]; intros g; simpl; [discriminate|].
  destruct (Ascii.eqb c "]"); [auto|].
  destruct (Ascii.eqb c newline); [discriminate|].
  destruct (scan_group t) as [g'|]; simpl; [|discriminate].
  intros H. rewrite (IH g' eq_refl). exact H.
Qed.

Lemma index_search_app (q u : string) :
  index_search q <> None -> index_search (q ++ u)%string <> None.
Proof.
  induction q as [|c q IH]; simpl; [congruence|].
  destruct (Ascii.eqb c "[").
  - destruct (scan_group q) as [g|] eqn:E.
    + rewrite (scan_group_app q u g E). discriminate.
    + destruct (scan_group (q ++ u)%string); [discriminate|].
      destruct (index_search q) as [[pre g]|]; [|congruence].
      intros _. destruct (index_search (q ++ u)%string) as [[pre' g']|];
        [discriminate|]. exfalso. apply IH; congruence.
  - destruct (index_search q) as [[pre g]|]; [|congruence].
    intros _. destruct (index_search (q ++ u)%string) as [[pre' g']|];
      [discriminate|]. exfalso. apply IH; congruence.
Qed.

Lemma index_search_tail (c : ascii) (s : string) :
  index_search (String c s) = None -> index_search s = None.
Proof.
  simpl. destruct (if Ascii.eqb c "[" then scan_group s else None);
    [discriminate|].
  destruct (index_search s) as [[pre g]|]; [discriminate|reflexivity].
Qed.

Lemma split_pieces_prefix (sep : ascii) (s : string) :
  exists u, s = (fst (split_pieces sep s) ++ u)%string.
Proof.
  induction s as [|c s [u IH]]; simpl; [exists EmptyString; reflexivity|].
  destruct (split_pieces sep s) as [p ps]. simpl in IH.
  destruct (Ascii.eqb c sep); simpl.
  - exists (String c s). reflexivity.
  - exists u. rewrite IH at 1. reflexivity.
Qed.

(** The pieces of a segment without a bracket have none. *)
Lemma split_no_bracket (s : string) :
  index_search s = None ->
  Forall (fun q => index_search q = None) (split "." s).
Proof.
  unfold split. induction s as [|c s IH]; intros Hs.
  - simpl. repeat constructor.
  - specialize (IH (index_search_tail c s Hs)).
    pose proof (split_pieces_prefix "." (String c s)) as [u Hu].
    simpl in Hu |- *. destruct (split_pieces "." s) as [p ps].
    inversion IH as [|? ? Hp Hps]; subst.
    destruct (Ascii.eqb c "."); simpl in Hu.
    + constructor; [reflexivity|]. constructor; assumption.
    + constructor; [|exact Hps].
      destruct (index_search (String c p)) as [[pre g]|] eqn:E;
        [|reflexivity].
      exfalso. apply (index_search_app (String c p) u); [congruence|].
      assert (Hs' : (String c p ++ u)%string = String c s)
        by (symmetry; exact Hu).
      rewrite Hs'. exact Hs.
Qed.

(** Only a bracket lets an exception out: a path none of whose segments
    has one always returns. *)
Lemma bracket_free_paths_return (rt : Runtime) (parts : list string) :
  Forall (fun p => index_search p = None) parts ->
  forall obj : Value, exists v : Value, resolve_path rt obj parts = Ok v.
Proof.
  induction parts as [|current remaining IHrem IHdot] using parts_induction;
    intros Hparts obj.
  { exists obj. simp resolve_path. reflexivity. }
  inversion Hparts as [|? ? Hcur Hrem]; subst.
  simp resolve_path. rewrite Hcur.
  destruct (is_none obj); [exists obj; reflexivity|].
  destruct (dict_get obj current) as [v|]; [apply IHrem; exact Hrem|].
  destruct (is_list obj && isdigit current)%bool eqn:Hl.
  - apply andb_true_iff in Hl as [Hl _].
    destruct obj; try discriminate Hl. unfold py_int.
    destruct (parse_int rt current) as [idx|]; simpl;
      [|exists VNone; reflexivity].
    destruct (list_item items idx) as [item|]; simpl;
      [|exists VNone; reflexivity].
    destruct (IHrem Hrem item) as [v Hv]. rewrite Hv. exists v. reflexivity.
  - destruct (bool_dec (contains "." current) true) as [Hdot|];
      [|exists VNone; reflexivity].
    cbn zeta. apply (IHdot Hdot).
    apply Forall_app. split; [apply split_no_bracket; exact Hcur|exact Hrem].
Qed.

(** ** The store *)

Lemma length_update (h : heap) (l : loc) (c : cell) :
  length (update h l c) = length h.
Proof.
  revert l. induction h as [|c0 h IH]; intros [|l]; simpl; auto.
Qed.

Lemma nth_error_update_same (h : heap) (l : loc) (c : cell) :
  (l < length h)%nat -> nth_error (update h l c) l = Some c.
Proof.
  revert l. induction h as [|c0 h IH]; intros [|l]; simpl; intros H;
    try lia; [reflexivity|]. apply IH. lia.
Qed.

Lemma nth_error_update_other (h : heap) (l l' : loc) (c : cell) :
  l <> l' -> nth_error (update h l c) l' = nth_error h l'.
Proof.
  revert l l'. induction h as [|c0 h IH]; intros [|l] [|l'] H; simpl;
    try reflexivity; try congruence.
  apply IH. congruence.
Qed.

Lemma preserved_length (h h' : heap) :
  preserved h h' -> (length h <= length h')%nat.
Proof.
  intros H. destruct (length h) as [|n] eqn:E; [lia|].
  assert (Hn : (n < length h)%nat) by lia.
  pose proof (H n Hn) as Hc.
  assert (nth_error h n <> None) as Hs by (apply nth_error_Some; lia).
  rewrite <- Hc in Hs. apply nth_error_Some in Hs. lia.
Qed.

Lemma preserved_refl (h : heap) : preserved h h.
Proof. intros l _. reflexivity. Qed.

Lemma preserved_trans (h1 h2 h3 : heap) :
  preserved h1 h2 -> preserved h2 h3 -> preserved h1 h3.
Proof.
  intros H12 H23 l Hl. rewrite <- (H12 l Hl). apply H23.
  pose proof (preserved_length _ _ H12). lia.
Qed.

Lemma preserved_app (h new : heap) : preserved h (h ++ new).
Proof. intros l Hl. apply nth_error_app1. exact Hl. Qed.

Lemma preserved_preserved_but (a : loc) (h h' : heap) :
  preserved h h' -> preserved_but a h h'.
Proof.
  intros H. split; [apply preserved_length; exact H|].
  intros l Hl _. apply H. exact Hl.
Qed.

Lemma preserved_but_trans (a : loc) (h1 h2 h3 : heap) :
  preserved_but a h1 h2 -> preserved_but a h2 h3 -> preserved_but a h1 h3.
Proof.
  intros [L12 H12] [L23 H23]. split; [lia|].
  intros l Hl Ha. rewrite <- (H12 l Hl Ha). apply H23; [lia|exact Ha].
Qed.

Lemma preserved_but_update (a : loc) (h : heap) (c : cell) :
  preserved_but a h (update h a c).
Proof.
  split; [rewrite length_update; lia|].
  intros l _ Ha. apply nth_error_update_other. congruence.
Qed.

(** ** Values in the store *)

Lemma Value_ind_nested (P : Value -> Prop) :
  P VNone ->
  (forall b, P (VBool b)) ->
  (forall n, P (VInt n)) ->
  (forall bits, P (VFloat bits)) ->
  (forall s, P (VStr s)) ->
  (forall items, Forall P items -> P (VList items)) ->
  (forall entries, Forall (fun kv => P (snd kv)) entries -> P (VDict entries)) ->
  forall v, P v.
Proof.
  intros HN HB HI HF HS HL HD. fix IH 1.
  intros [ |b|n|bits|s|items|entries];
    [exact HN|apply HB|apply HI|apply HF|apply HS| | ].
  - apply HL. induction items as [|x items IHitems]; constructor;
      [apply IH|exact IHitems].
  - apply HD. induction entries as [|[k x] entries IHentries]; constructor;
      [apply IH|exact IHentries].
Qed.

(** [repr] goes over to another store and another set of addresses to
    avoid, as long as the cells it may use are still right. *)
Lemma repr_transfer (h h' : heap) (A A' : loc -> Prop) :
  (forall l c, ~ A l -> nth_error h l = Some c ->
               ~ A' l /\ nth_error h' l = Some c) ->
  forall v x, repr h A x v -> repr h' A' x v.
Proof.
  intros Hcells v.
  induction v as [ | | | | |items IH|entries IH] using Value_ind_nested;
    intros x Hx; inversion Hx as [ | | | | |l ys vs Ha Hc Hall|l es ves Ha Hc Hall];
    subst; try constructor.
  - destruct (Hcells _ _ Ha Hc) as [Ha' Hc'].
    apply repr_list with (items := ys); [exact Ha'|exact Hc'|].
    clear Ha Hc Hx Ha' Hc'. induction Hall as [|y v ys vs Hy _ IHys];
      [constructor|].
    inversion IH as [|? ? Hv Hvs]; subst. constructor; [apply Hv; exact Hy|].
    apply IHys. exact Hvs.
  - destruct (Hcells _ _ Ha Hc) as [Ha' Hc'].
    apply repr_dict with (entries := es); [exact Ha'|exact Hc'|].
    clear Ha Hc Hx Ha' Hc'. induction Hall as [|e ve es ves He _ IHes];
      [constructor|].
    inversion IH as [|? ? Hv Hvs]; subst. constructor.
    + destruct He as [Hk Hr]. split; [exact Hk|]. apply Hv. exact Hr.
    + apply IHes. exact Hvs.
Qed.

Lemma repr_preserved_but (a : loc) (h h' : heap) (A : loc -> Prop)
  (x : ref) (v : Value) :
  A a -> preserved_but a h h' -> repr h A x v -> repr h' A x v.
Proof.
  intros Ha [_ Hp]. apply repr_transfer. intros l c Hl Hc.
  split; [exact Hl|]. rewrite Hp; [exact Hc| |congruence].
  apply nth_error_Some. congruence.
Qed.

Lemma repr_preserved (h h' : heap) (A : loc -> Prop) (x : ref) (v : Value) :
  preserved h h' -> repr h A x v -> repr h' A x v.
Proof.
  intros Hp. apply repr_transfer. intros l c Hl Hc.
  split; [exact Hl|]. rewrite Hp; [exact Hc|].
  apply nth_error_Some. congruence.
Qed.

Lemma repr_weaken (h : heap) (A A' : loc -> Prop) (x : ref) (v : Value) :
  (forall l, A' l -> A l) -> repr h A x v -> repr h A' x v.
Proof.
  intros HA. apply repr_transfer. intros l c Hl Hc. split; [|exact Hc].
  intros H. apply Hl, HA, H.
Qed.

(** A value of the store [h] makes no use of the address of the next cell
    to come. *)
Lemma repr_alloc (h : heap) (c : cell) (A : loc -> Prop) (x : ref)
  (v : Value) :
  repr h A x v -> repr (h ++ [c]) (fun l => A l \/ l = length h) x v.
Proof.
  apply repr_transfer. intros l c' Hl Hc.
  assert (l < length h)%nat by (apply nth_error_Some; congruence).
  split; [intros [H'|H']; [contradiction|lia]|].
  rewrite nth_error_app1 by assumption. exact Hc.
Qed.

(** ** The builtins over the store and over values *)

Section Builtins.
Variable rt : Runtime.
Variable h : heap.
Variable A : loc -> Prop.

Lemma repr_is_none (x : ref) (v : Value) :
  repr h A x v -> is_rnone x = is_none v.
Proof. intros H. inversion H; reflexivity. Qed.

Lemma repr_read_list (x : ref) (v : Value) :
  repr h A x v ->
  match read_list h x with
  | Some items => exists vs, v = VList vs /\ Forall2 (repr h A) items vs
  | None => forall vs, v <> VList vs
  end.
Proof.
  intros H. inversion H as [ | | | | |l ys vs Ha Hc Hall|l es ves Ha Hc Hall];
    subst; simpl; try discriminate.
  - rewrite Hc. exists vs. split; [reflexivity|exact Hall].
  - rewrite Hc. discriminate.
Qed.

Lemma repr_is_list (x : ref) (v : Value) :
  repr h A x v -> h_is_list h x = is_list v.
Proof.
  intros H. unfold h_is_list. pose proof (repr_read_list x v H) as Hr.
  destruct (read_list h x).
  - destruct Hr as (vs & -> & _). reflexivity.
  - destruct v; try reflexivity. exfalso. exact (Hr items eq_refl).
Qed.

Lemma repr_lookup (es : list (string * ref)) (ves : list (string * Value))
  (key : string) :
  Forall2 (fun e ve => fst e = fst ve /\ repr h A (snd e) (snd ve)) es ves ->
  same_option (repr h A) (h_lookup es key) (lookup ves key).
Proof.
  induction 1 as [|[k y] [k' w] es ves [Hk Hr] _ IH]; simpl; [exact I|].
  simpl in Hk, Hr. subst k'. destruct (String.eqb k key); [exact Hr|exact IH].
Qed.

Lemma repr_dict_get (x : ref) (v : Value) (key : string) :
  repr h A x v ->
  same_option (repr h A) (h_dict_get h x key) (dict_get v key).
Proof.
  intros H. unfold h_dict_get.
  inversion H as [ | | | | |l ys vs Ha Hc Hall|l es ves Ha Hc Hall];
    subst; simpl; try exact I.
  - rewrite Hc. exact I.
  - rewrite Hc. apply repr_lookup. exact Hall.
Qed.

Lemma Forall2_nth_error {X Y} (R : X -> Y -> Prop) (l1 : list X)
  (l2 : list Y) (n : nat) :
  Forall2 R l1 l2 -> same_option R (nth_error l1 n) (nth_error l2 n).
Proof.
  intros H. revert n. induction H as [|x y l1 l2 Hxy _ IH]; intros [|n];
    simpl; auto.
Qed.

Lemma Forall2_list_item {X Y} (R : X -> Y -> Prop) (l1 : list X)
  (l2 : list Y) (i : Z) :
  Forall2 R l1 l2 -> same_option R (list_item l1 i) (list_item l2 i).
Proof.
  intros H. unfold list_item. rewrite (Forall2_length H).
  destruct (_ && _)%bool; [|exact I]. apply Forall2_nth_error. exact H.
Qed.

Lemma Forall2_py_slice {X Y} (R : X -> Y -> Prop) (l1 : list X)
  (l2 : list Y) (start stop step : Z) :
  Forall2 R l1 l2 ->
  Forall2 R (py_slice l1 start stop step) (py_slice l2 start stop step).
Proof.
  intros H. unfold py_slice. rewrite (Forall2_length H).
  induction (seq 0 _) as [|k ks IH]; simpl; [constructor|].
  apply Forall2_app; [|exact IH].
  pose proof (Forall2_nth_error R l1 l2
                (Z.to_nat
                   (adjust_index (Z.of_nat (length l2)) step start
                    + Z.of_nat k * step)) H) as Hk.
  destruct (nth_error l1 _); destruct (nth_error l2 _); simpl in Hk;
    try contradiction; repeat constructor. exact Hk.
Qed.

Lemma repr_chars (s : string) : Forall2 (repr h A) (h_chars s) (chars s).
Proof.
  unfold h_chars, chars.
  induction (list_ascii_of_string s) as [|c cs IH]; simpl; constructor;
    [constructor|exact IH].
Qed.

Lemma repr_subscript (x : ref) (v : Value) (idx : Z) :
  repr h A x v ->
  same_result (repr h A) (h_subscript h x idx) (subscript v idx).
Proof.
  intros H.
  inversion H as [ | | | | |l ys vs Ha Hc Hall|l es ves Ha Hc Hall];
    subst; simpl; try reflexivity.
  - pose proof (Forall2_list_item _ _ _ idx (repr_chars s)) as Hi.
    destruct (list_item (h_chars s) idx); destruct (list_item (chars s) idx);
      simpl in Hi; try contradiction; [exact Hi|reflexivity].
  - rewrite Hc. pose proof (Forall2_list_item _ _ _ idx Hall) as Hi.
    destruct (list_item ys idx); destruct (list_item vs idx);
      simpl in Hi; try contradiction; [exact Hi|reflexivity].
  - rewrite Hc. reflexivity.
Qed.

Lemma repr_len (x : ref) (v : Value) :
  repr h A x v -> h_len h x = py_len v.
Proof.
  intros H.
  inversion H as [ | | | | |l ys vs Ha Hc Hall|l es ves Ha Hc Hall];
    subst; simpl; try reflexivity.
  - rewrite Hc, (Forall2_length Hall). reflexivity.
  - rewrite Hc, (Forall2_length Hall). reflexivity.
Qed.

Lemma repr_slice_items (x : ref) (v : Value) (start stop step : Z) :
  repr h A x v ->
  same_result (Forall2 (repr h A))
    (h_slice_items rt h x start stop step)
    (slice_items rt v start stop step).
Proof.
  intros H.
  inversion H as [ | | | | |l ys vs Ha Hc Hall|l es ves Ha Hc Hall];
    subst; simpl; try reflexivity.
  - destruct (step =? 0); simpl; [reflexivity|].
    apply Forall2_py_slice. apply repr_chars.
  - rewrite Hc. destruct (step =? 0); simpl; [reflexivity|].
    apply Forall2_py_slice. exact Hall.
  - rewrite Hc. reflexivity.
Qed.

Lemma repr_descend (field : string) (x : ref) (v : Value) :
  repr h A x v ->
  same_result (repr h A) (h_descend rt h field x) (descend rt field v).
Proof.
  intros H. unfold h_descend, descend.
  destruct (is_empty field); [exact H|].
  pose proof (repr_dict_get x v field H) as Hg.
  destruct (h_dict_get h x field); destruct (dict_get v field);
    simpl in Hg; try contradiction; [exact Hg|].
  rewrite (repr_is_list x v H).
  destruct (is_list v && isdigit field)%bool; [|exact H].
  unfold py_int. destruct (parse_int rt field); simpl; [|reflexivity].
  apply repr_subscript. exact H.
Qed.
End Builtins.

(** ** The loop over the store and over values *)

Lemma expand_cons (f : Value -> result Value) (v : Value)
  (vs acc : list Value) :
  expand f (v :: vs) acc = (r <- f v ;; expand f vs (acc ++ splice r)).
Proof.
  simpl. destruct (f v) as [r|e]; simpl; [|reflexivity].
  destruct r; reflexivity.
Qed.

Section Loops.
Variable rt : Runtime.
Variable remaining : list string.

(** What is known of the calls on the remaining segments. *)
Hypothesis call_ok :
  forall (A : loc -> Prop) (h : heap) (item : ref) (v : Value),
    (forall l, A l -> (l < length h)%nat) ->
    repr h A item v ->
    preserved h (snd (resolve_path_h rt item remaining h))
    /\ same_outcome (snd (resolve_path_h rt item remaining h)) A
         (fst (resolve_path_h rt item remaining h))
         (resolve_path rt v remaining).

Variable A : loc -> Prop.
Variable results : loc.
Hypothesis A_results : A results.

Lemma h_turn_spec (h : heap) (item : ref) (v : Value) (sofar : list ref)
  (acc : list Value) :
  (forall l, A l -> (l < length h)%nat) ->
  nth_error h results = Some (CList sofar) ->
  Forall2 (repr h A) sofar acc ->
  repr h A item v ->
  loop_post A results h
    (h_turn (fun item h => resolve_path_h rt item remaining h) results item h)
    (r <- resolve_path rt v remaining ;; Ok (acc ++ splice r)).
Proof.
  intros Hbound Hres Hsofar Hitem. unfold loop_post, h_turn.
  destruct (call_ok A h item v Hbound Hitem) as [Hp Ho].
  destruct (resolve_path_h rt item remaining h) as [r h1]. simpl in Hp, Ho.
  unfold same_outcome, same_result in Ho.
  destruct r as [x|e]; destruct (resolve_path rt v remaining) as [rv|e'];
    try contradiction; simpl.
  2:{ split; [apply preserved_preserved_but; exact Hp|congruence]. }
  assert (Hlt : (results < length h)%nat) by (apply Hbound, A_results).
  assert (Hlt1 : (results < length h1)%nat)
    by (pose proof (preserved_length _ _ Hp); lia).
  assert (Hres1 : nth_error h1 results = Some (CList sofar))
    by (rewrite (Hp results Hlt); exact Hres).
  unfold h_collect. simpl. rewrite Hres1.
  assert (Hsofar1 : forall c, Forall2 (repr (update h1 results c) A) sofar acc).
  { intros c. eapply Forall2_impl; [|exact Hsofar]. intros y w Hyw.
    apply (repr_preserved_but results h1 _ A y w A_results
             (preserved_but_update results h1 c)).
    apply (repr_preserved h h1 A y w Hp Hyw). }
  assert (Hbut : forall c, preserved_but results h (update h1 results c)).
  { intros c. eapply preserved_but_trans;
      [apply preserved_preserved_but; exact Hp|apply preserved_but_update]. }
  pose proof (repr_read_list h1 A x rv Ho) as Hr.
  destruct (read_list h1 x) as [xs|].
  - destruct Hr as (vs & -> & Hxs). simpl.
    split; [apply Hbut|]. split; [reflexivity|].
    exists (sofar ++ xs). split; [apply nth_error_update_same; exact Hlt1|].
    apply Forall2_app; [apply Hsofar1|].
    eapply Forall2_impl; [|exact Hxs]. intros y w Hyw.
    apply (repr_preserved_but results h1 _ A y w A_results
             (preserved_but_update results h1 _) Hyw).
  - split; [apply Hbut|]. split; [reflexivity|].
    exists (sofar ++ [x]). split; [apply nth_error_update_same; exact Hlt1|].
    replace (splice rv) with [rv]
      by (destruct rv; try reflexivity; exfalso; exact (Hr items eq_refl)).
    apply Forall2_app; [apply Hsofar1|]. constructor; [|constructor].
    apply (repr_preserved_but results h1 _ A x rv A_results
             (preserved_but_update results h1 _) Ho).
Qed.

Lemma loop_post_step (h h1 : heap) (out : result unit * heap)
  (o : result (list Value)) :
  preserved_but results h h1 ->
  loop_post A results h1 out o -> loop_post A results h out o.
Proof.
  intros Hb [Hp Ho]. split; [|exact Ho].
  eapply preserved_but_trans; eassumption.
Qed.

(** The loop over a sequence of its own. *)
Lemma h_for_items_spec (items : list ref) (vs : list Value) :
  Forall2 (fun _ _ => True) items vs ->
  forall (h : heap) (sofar : list ref) (acc : list Value),
    (forall l, A l -> (l < length h)%nat) ->
    nth_error h results = Some (CList sofar) ->
    Forall2 (repr h A) sofar acc ->
    Forall2 (repr h A) items vs ->
    loop_post A results h
      (h_for_items
         (h_turn (fun item h => resolve_path_h rt item remaining h) results)
         items h)
      (expand (fun v => resolve_path rt v remaining) vs acc).
Proof.
  induction 1 as [|item v items vs _ _ IH];
    intros h sofar acc Hbound Hres Hsofar Hitems.
  - unfold loop_post. simpl. split; [split; [lia|reflexivity]|].
    split; [reflexivity|]. exists sofar. split; assumption.
  - inversion Hitems as [|? ? ? ? Hitem Hrest]; subst.
    rewrite expand_cons. cbn [h_for_items].
    pose proof (h_turn_spec h item v sofar acc Hbound Hres Hsofar Hitem)
      as [Hb Ht].
    destruct (h_turn _ results item h) as [r h1]. simpl in Hb, Ht.
    destruct (resolve_path rt v remaining) as [rv|e]; simpl in Ht |- *.
    + destruct Ht as (-> & sofar' & Hres' & Hsofar').
      apply (loop_post_step h h1 _ _ Hb).
      apply (IH h1 sofar' (acc ++ splice rv)); [|exact Hres'|exact Hsofar'|].
      * intros l Hl. destruct Hb as [Hlen _]. specialize (Hbound l Hl). lia.
      * eapply Forall2_impl; [|exact Hrest]. intros y w Hyw.
        apply (repr_preserved_but results h h1 A y w A_results Hb Hyw).
    + subst r. split; [exact Hb|reflexivity].
Qed.

(** The loop over a list of the store, read again at every step. *)
Lemma h_for_each_spec (src : loc) (todo : list ref) (vs : list Value) :
  src <> results ->
  Forall2 (fun _ _ => True) todo vs ->
  forall (h : heap) (done sofar : list ref) (acc : list Value),
    (forall l, A l -> (l < length h)%nat) ->
    nth_error h results = Some (CList sofar) ->
    Forall2 (repr h A) sofar acc ->
    nth_error h src = Some (CList (done ++ todo)) ->
    Forall2 (repr h A) todo vs ->
    loop_post A results h
      (h_for_each
         (h_turn (fun item h => resolve_path_h rt item remaining h) results)
         src (length done) (length todo) h)
      (expand (fun v => resolve_path rt v remaining) vs acc).
Proof.
  intros Hsrc.
  induction 1 as [|item v todo vs _ _ IH];
    intros h done sofar acc Hbound Hres Hsofar Hlist Htodo.
  - unfold loop_post. simpl. split; [split; [lia|reflexivity]|].
    split; [reflexivity|]. exists sofar. split; assumption.
  - inversion Htodo as [|? ? ? ? Hitem Hrest]; subst.
    rewrite expand_cons. cbn [h_for_each length read_list]. rewrite Hlist.
    rewrite nth_error_app2, Nat.sub_diag by lia. cbn [nth_error].
    pose proof (h_turn_spec h item v sofar acc Hbound Hres Hsofar Hitem)
      as [Hb Ht].
    destruct (h_turn _ results item h) as [r h1]. simpl in Hb, Ht.
    destruct (resolve_path rt v remaining) as [rv|e]; simpl in Ht |- *.
    + destruct Ht as (-> & sofar' & Hres' & Hsofar').
      apply (loop_post_step h h1 _ _ Hb).
      replace (S (length done)) with (length (done ++ [item]))
        by (rewrite length_app; simpl; lia).
      apply (IH h1 (done ++ [item]) sofar' (acc ++ splice rv));
        [|exact Hres'|exact Hsofar'| |].
      * intros l Hl. destruct Hb as [Hlen _]. specialize (Hbound l Hl). lia.
      * rewrite <- app_assoc. simpl. destruct Hb as [_ Hb].
        rewrite Hb; [exact Hlist| |exact Hsrc].
        apply nth_error_Some. congruence.
      * eapply Forall2_impl; [|exact Hrest]. intros y w Hyw.
        apply (repr_preserved_but results h h1 A y w A_results Hb Hyw).
    + subst r. split; [exact Hb|reflexivity].
Qed.
End Loops.

(** ** The resolver over the store and over values *)

Lemma refines_return (A : loc -> Prop) (h : heap) (x : ref) (v : Value) :
  repr h A x v -> refines A h (Ok x, h) (Ok v).
Proof. intros H. split; [apply preserved_refl|exact H]. Qed.

Lemma refines_raise (A : loc -> Prop) (h h' : heap) (e : exn) :
  preserved h h' -> refines A h (Raise e, h') (Raise e).
Proof. intros H. split; [exact H|reflexivity]. Qed.

Lemma refines_try (A : loc -> Prop) (h : heap) (handled : list exn)
  (out : result ref * heap) (o : result Value) :
  refines A h out o -> refines A h (h_try handled out) (try_except handled o).
Proof.
  destruct out as [r h']. intros [Hp Ho]. simpl in Hp, Ho.
  unfold same_outcome, same_result in Ho. unfold h_try, try_except.
  destruct r as [x|e]; destruct o as [v|e']; try contradiction.
  - split; assumption.
  - subst e'. destruct (existsb (exn_eqb e) handled).
    + split; [exact Hp|constructor].
    + split; [exact Hp|reflexivity].
Qed.

(** After the loop: [return results]. *)
Lemma refines_loop (A : loc -> Prop) (h : heap) (out : result unit * heap)
  (o : result (list Value)) :
  (forall l, A l -> (l < length h)%nat) ->
  loop_post (fun l => A l \/ l = length h) (length h) (h ++ [CList []]) out o ->
  refines A h
    (let (r, h') := out in
     match r with
     | Ok _ => (Ok (RObj (length h)), h')
     | Raise e => (Raise e, h')
     end)
    (results <- o ;; Ok (VList results)).
Proof.
  intros Hbound [Hb Ho]. destruct out as [r h']. simpl in Hb, Ho.
  assert (Hp : preserved h h').
  { intros l Hl. destruct Hb as [_ Hb].
    rewrite Hb by (rewrite ?length_app; simpl; lia).
    apply nth_error_app1. exact Hl. }
  destruct o as [final|e]; simpl.
  - destruct Ho as (-> & rout & Hres & Hrout). split; [exact Hp|].
    simpl. apply repr_list with (items := rout); [|exact Hres|].
    + intros Ha. specialize (Hbound _ Ha). lia.
    + eapply Forall2_impl; [|exact Hrout]. intros y w.
      apply repr_weaken. intros l Hl. left. exact Hl.
  - subst r. split; [exact Hp|reflexivity].
Qed.

Lemma Forall2_shape {X Y} (R : X -> Y -> Prop) (l1 : list X) (l2 : list Y) :
  Forall2 R l1 l2 -> Forall2 (fun _ _ => True) l1 l2.
Proof. apply Forall2_impl. auto. Qed.

Lemma resolve_path_h_refines (rt : Runtime) (parts : list string) :
  forall (A : loc -> Prop) (h : heap) (obj : ref) (v : Value),
    (forall l, A l -> (l < length h)%nat) ->
    repr h A obj v ->
    refines A h (resolve_path_h rt obj parts h) (resolve_path rt v parts).
Proof.
  induction parts as [|current remaining IHrem IHdot] using parts_induction;
    intros A h obj v Hbound Hobj.
  { simp resolve_path_h resolve_path. apply refines_return. exact Hobj. }
  assert (Hcalls :
            forall (A : loc -> Prop) (h : heap) (item : ref) (v : Value),
              (forall l, A l -> (l < length h)%nat) ->
              repr h A item v ->
              preserved h (snd (resolve_path_h rt item remaining h))
              /\ same_outcome (snd (resolve_path_h rt item remaining h)) A
                   (fst (resolve_path_h rt item remaining h))
                   (resolve_path rt v remaining)).
  { intros A0 h0 item w Hb Hr. exact (IHrem A0 h0 item w Hb Hr). }
  rewrite resolve_path_h_equation_2, resolve_path_equation_2.
  rewrite (repr_is_none h A obj v Hobj).
  destruct (is_none v); [apply refines_return; exact Hobj|].
  destruct (index_search current) as [[prefix index_expr]|].
  - (* a bracket *)
    cbn zeta.
    pose proof (repr_descend rt h A (strip prefix) obj v Hobj) as Hd.
    unfold same_result in Hd.
    destruct (h_descend rt h (strip prefix) obj) as [obj0|e];
      destruct (descend rt (strip prefix) v) as [v0|e'];
      try contradiction;
      [|subst e'; apply refines_raise, preserved_refl].
    cbn [bind].
    assert (Hobj1 : repr (h ++ [CList []]) (fun l => A l \/ l = length h)
                      obj0 v0) by (apply repr_alloc; exact Hd).
    assert (Hbound1 : forall l, A l \/ l = length h ->
                                (l < length (h ++ [CList []]))%nat).
    { intros l [Hl| ->]; rewrite length_app; simpl;
        [specialize (Hbound l Hl)|]; lia. }
    assert (Hres1 : nth_error (h ++ [CList []]) (length h) = Some (CList [])).
    { rewrite nth_error_app2, Nat.sub_diag by lia. reflexivity. }
    destruct (String.eqb index_expr "*").
    + (* the wildcard *)
      pose proof (repr_read_list h A obj0 v0 Hd) as Hr.
      destruct (read_list h obj0) as [items|] eqn:Hrl.
      * destruct Hr as (vs & -> & Hitems).
        destruct obj0 as [ | | | | |src]; try discriminate Hrl.
        cbn zeta.
        assert (Hsrc : nth_error h src = Some (CList items)).
        { simpl in Hrl. destruct (nth_error h src) as [[ys|]|];
            try discriminate. congruence. }
        assert (Hlt : (src < length h)%nat)
          by (apply nth_error_Some; congruence).
        apply refines_loop; [exact Hbound|].
        apply (h_for_each_spec rt remaining Hcalls
                 (fun l => A l \/ l = length h) (length h) (or_intror eq_refl)
                 src items vs ltac:(lia) (Forall2_shape _ _ _ Hitems)
                 (h ++ [CList []]) [] [] []); auto.
        -- rewrite nth_error_app1 by exact Hlt. exact Hsrc.
        -- eapply Forall2_impl; [|exact Hitems]. intros y w.
           apply repr_alloc.
      * assert (Hpure : match v0 with
                        | VList items =>
                            results <-
                              expand (fun item => resolve_path rt item remaining)
                                items [] ;;
                            Ok (VList results)
                        | _ => Ok VNone
                        end = Ok VNone).
        { destruct v0; try reflexivity. exfalso. exact (Hr items eq_refl). }
        rewrite Hpure.
        destruct obj0; apply refines_return; constructor.
    + destruct (contains ":" index_expr).
      * (* a slice *)
        cbn zeta. apply refines_try.
        rewrite (repr_len h A obj0 v0 Hd).
        destruct (slice_bound rt _ 0 _) as [start|e];
          [|apply refines_raise, preserved_refl].
        destruct (slice_bound rt _ 1 _) as [stop|e];
          [|apply refines_raise, preserved_refl].
        destruct (slice_bound rt _ 2 _) as [step|e];
          [|apply refines_raise, preserved_refl].
        cbn [bind]. cbn zeta.
        pose proof (repr_slice_items rt _ _ obj0 v0 start stop step Hobj1)
          as Hs.
        unfold same_result in Hs.
        destruct (h_slice_items rt (h ++ [CList []]) obj0 start stop step)
          as [items|e];
          destruct (slice_items rt v0 start stop step) as [vs|e'];
          try contradiction;
          [|subst e'; apply refines_raise, preserved_app].
        cbn [bind]. apply refines_loop; [exact Hbound|].
        apply (h_for_items_spec rt remaining Hcalls
                 (fun l => A l \/ l = length h) (length h) (or_intror eq_refl)
                 items vs (Forall2_shape _ _ _ Hs)
                 (h ++ [CList []]) [] []); auto.
      * (* a single index *)
        apply refines_try. unfold py_int.
        destruct (parse_int rt index_expr) as [idx|];
          [|apply refines_raise, preserved_refl].
        cbn [bind].
        pose proof (repr_subscript h A obj0 v0 idx Hd) as Hs.
        unfold same_result in Hs.
        destruct (h_subscript h obj0 idx) as [item|e];
          destruct (subscript v0 idx) as [w|e'];
          try contradiction;
          [|subst e'; apply refines_raise, preserved_refl].
        cbn [bind]. apply IHrem; assumption.
  - (* no bracket *)
    pose proof (repr_dict_get h A obj v current Hobj) as Hg.
    unfold same_option in Hg.
    destruct (h_dict_get h obj current) as [x|];
      destruct (dict_get v current) as [w|]; try contradiction.
    + apply IHrem; assumption.
    + rewrite (repr_is_list h A obj v Hobj).
      destruct (is_list v && isdigit current)%bool.
      * apply refines_try. unfold py_int.
        destruct (parse_int rt current) as [idx|];
          [|apply refines_raise, preserved_refl].
        cbn [bind].
        pose proof (repr_subscript h A obj v idx Hobj) as Hs.
        unfold same_result in Hs.
        destruct (h_subscript h obj idx) as [item|e];
          destruct (subscript v idx) as [w|e'];
          try contradiction;
          [|subst e'; apply refines_raise, preserved_refl].
        cbn [bind]. apply IHrem; assumption.
      * destruct (bool_dec (contains "." current) true) as [Hdot|].
        -- cbn zeta. apply IHdot; assumption.
        -- apply refines_return. constructor.
Qed.

Lemma h_comprehension_refines (rt : Runtime) (A : loc -> Prop) (data : ref)
  (v : Value) (paths : list string) :
  forall h : heap,
    (forall l, A l -> (l < length h)%nat) ->
    repr h A data v ->
    let out :=
      h_comprehension (fun p h => resolve_path_h rt data (tokenize p) h)
        paths h in
    preserved h (snd out)
    /\ same_result (Forall2 (repr (snd out) A)) (fst out)
         (comprehension (fun p => resolve_path rt v (tokenize p)) paths).
Proof.
  induction paths as [|p paths IH]; intros h Hbound Hdata; cbn zeta.
  - simpl. split; [apply preserved_refl|constructor].
  - cbn [h_comprehension comprehension].
    destruct (resolve_path_h_refines rt (tokenize p) A h data v Hbound Hdata)
      as [Hp Ho].
    destruct (resolve_path_h rt data (tokenize p) h) as [r h1].
    simpl in Hp, Ho. unfold same_outcome, same_result in Ho.
    destruct r as [x|e]; destruct (resolve_path rt v (tokenize p)) as [w|e'];
      try contradiction; simpl.
    2:{ split; [exact Hp|exact Ho]. }
    assert (Hbound1 : forall l, A l -> (l < length h1)%nat).
    { intros l Hl. specialize (Hbound l Hl).
      pose proof (preserved_length _ _ Hp). lia. }
    specialize (IH h1 Hbound1 (repr_preserved h h1 A data v Hp Hdata)).
    cbn zeta in IH. destruct IH as [Hp2 Ho2].
    destruct (h_comprehension _ paths h1) as [rs h2]. simpl in Hp2, Ho2.
    unfold same_result in Ho2.
    destruct rs as [xs|e];
      destruct (comprehension (fun p => resolve_path rt v (tokenize p)) paths)
        as [ws|e']; try contradiction; simpl.
    + split; [eapply preserved_trans; eassumption|].
      constructor; [|exact Ho2].
      apply (repr_preserved h1 h2 A x w Hp2 Ho).
    + split; [eapply preserved_trans; eassumption|exact Ho2].
Qed.

Lemma parse_response_h_refines (rt : Runtime) (A : loc -> Prop) (h : heap)
  (data : ref) (v : Value) (paths : Paths) :
  (forall l, A l -> (l < length h)%nat) ->
  repr h A data v ->
  refines A h (parse_response_h rt data paths h) (parse_response rt v paths).
Proof.
  intros Hbound Hdata. destruct paths as [path|ps]; simpl.
  - apply resolve_path_h_refines; assumption.
  - destruct (h_comprehension_refines rt A data v ps h Hbound Hdata)
      as [Hp Ho]. cbn zeta in Hp, Ho.
    destruct (h_comprehension _ ps h) as [rs h1]. simpl in Hp, Ho.
    unfold same_result in Ho.
    destruct rs as [xs|e];
      destruct (comprehension (fun p => resolve_path rt v (tokenize p)) ps)
        as [ws|e']; try contradiction; simpl.
    + split; simpl.
      * eapply preserved_trans; [exact Hp|apply preserved_app].
      * apply repr_list with (items := xs).
        -- intros Ha. specialize (Hbound _ Ha).
           pose proof (preserved_length _ _ Hp). lia.
        -- rewrite nth_error_app2, Nat.sub_diag by lia. reflexivity.
        -- eapply Forall2_impl; [|exact Ho]. intros y w.
           apply repr_preserved. apply preserved_app.
    + split; [exact Hp|exact Ho].
Qed.

(** ** C8 *)

(** C8. Resolution reads and does not write: whatever the store held when
    [parse_response] was called is there, unchanged, when it returns; the
    only cells written are lists the call made itself.  Its outcome is a
    function of the value the data stand for and of the path(s): the
    reference returned stands for [parse_response] of that value, and so
    does the reference a second call returns, made on the store the first
    one left.  ["a.b"] over [{"a": {"b": 5}}] is [5], and [5] again. *)
Theorem resolution_reads_only_and_repeats (rt : Runtime) :
  (forall (h : heap) (data : ref) (v : Value) (paths : Paths),
      repr h nowhere data v ->
      let first := parse_response_h rt data paths h in
      let second := parse_response_h rt data paths (snd first) in
      preserved h (snd first)
      /\ preserved h (snd second)
      /\ repr (snd second) nowhere data v
      /\ same_outcome (snd first) nowhere (fst first)
           (parse_response rt v paths)
      /\ same_outcome (snd second) nowhere (fst second)
           (parse_response rt v paths)
      /\ match fst first, fst second with
         | Ok x1, Ok x2 =>
             exists w, parse_response rt v paths = Ok w
                       /\ repr (snd second) nowhere x1 w
                       /\ repr (snd second) nowhere x2 w
         | Raise e1, Raise e2 => e1 = e2
         | _, _ => False
         end)
  /\ (let h := [CDict [("b", RInt 5)]; CDict [("a", RObj 0%nat)]] in
      parse_response_h rt (RObj 1%nat) (PathStr "a.b") h = (Ok (RInt 5), h)
      /\ parse_response rt (VDict [("a", VDict [("b", VInt 5)])])
           (PathStr "a.b") = Ok (VInt 5)).
Proof.
  split; [|split; vm_compute; reflexivity].
  intros h data v paths Hdata first second.
  assert (Hnow : forall h0 : heap, forall l, nowhere l -> (l < length h0)%nat)
    by (intros ? ? []).
  destruct (parse_response_h_refines rt nowhere h data v paths (Hnow h) Hdata)
    as [Hp1 Ho1].
  fold first in Hp1, Ho1.
  pose proof (repr_preserved h (snd first) nowhere data v Hp1 Hdata) as Hdata1.
  destruct (parse_response_h_refines rt nowhere (snd first) data v paths
              (Hnow _) Hdata1) as [Hp2 Ho2].
  fold second in Hp2, Ho2.
  repeat split; try assumption.
  - eapply preserved_trans; eassumption.
  - apply (repr_preserved (snd first) (snd second) nowhere data v Hp2 Hdata1).
  - unfold same_outcome, same_result in Ho1, Ho2.
    destruct (fst first) as [x1|e1]; destruct (fst second) as [x2|e2];
      destruct (parse_response rt v paths) as [w|e]; try contradiction.
    + exists w. split; [reflexivity|]. split; [|exact Ho2].
      apply (repr_preserved (snd first) (snd second) nowhere x1 w Hp2 Ho1).
    + congruence.
Qed.

(** The wildcard over the store: the output is a new list, and the cells
    of the input are as they were. *)
Example wildcard_over_the_store :
  let h := [CList [RInt 1; RInt 2]; CList [RInt 3; RInt 4];
            CList [RObj 0%nat; RObj 1%nat]] in
  parse_response_h cpython (RObj 2%nat) (PathStr "[*]") h
  = (Ok (RObj 3%nat), h ++ [CList [RInt 1; RInt 2; RInt 3; RInt 4]]).
Proof. vm_compute. reflexivity. Qed.

Lemma resolution_reads_only_and_repeats_witness :
  preserved
    [CList [RInt 1; RInt 2]; CList [RInt 3; RInt 4];
     CList [RObj 0%nat; RObj 1%nat]]
    (snd (parse_response_h cpython (RObj 2%nat) (PathStr "[*]")
            (snd (parse_response_h cpython (RObj 2%nat) (PathStr "[*]")
                    [CList [RInt 1; RInt 2]; CList [RInt 3; RInt 4];
                     CList [RObj 0%nat; RObj 1%nat]]))))
  /\ same_outcome
       (snd (parse_response_h cpython (RObj 2%nat) (PathStr "[*]")
               (snd (parse_response_h cpython (RObj 2%nat) (PathStr "[*]")
                       [CList [RInt 1; RInt 2]; CList [RInt 3; RInt 4];
                        CList [RObj 0%nat; RObj 1%nat]]))))
       nowhere
       (fst (parse_response_h cpython (RObj 2%nat) (PathStr "[*]")
               (snd (parse_response_h cpython (RObj 2%nat) (PathStr "[*]")
                       [CList [RInt 1; RInt 2]; CList [RInt 3; RInt 4];
                        CList [RObj 0%nat; RObj 1%nat]]))))
       (Ok (VList [VInt 1; VInt 2; VInt 3; VInt 4])).
Proof.
  assert (Hdata : repr
                    [CList [RInt 1; RInt 2]; CList [RInt 3; RInt 4];
                     CList [RObj 0%nat; RObj 1%nat]]
                    nowhere (RObj 2%nat)
                    (VList [VList [VInt 1; VInt 2]; VList [VInt 3; VInt 4]])).
  { apply repr_list with (items := [RObj 0%nat; RObj 1%nat]);
      [intros []|reflexivity|].
    constructor; [|constructor; [|constructor]].
    - apply repr_list with (items := [RInt 1; RInt 2]);
        [intros []|reflexivity|repeat constructor].
    - apply repr_list with (items := [RInt 3; RInt 4]);
        [intros []|reflexivity|repeat constructor]. }
  pose proof (proj1 (resolution_reads_only_and_repeats cpython)
                [CList [RInt 1; RInt 2]; CList [RInt 3; RInt 4];
                 CList [RObj 0%nat; RObj 1%nat]]
                (RObj 2%nat)
                (VList [VList [VInt 1; VInt 2]; VList [VInt 3; VInt 4]])
                (PathStr "[*]") Hdata) as H.
  cbn zeta in H. destruct H as (_ & Hp & _ & _ & Ho & _).
  split; [exact Hp|exact Ho].
Defined.

(** * Further properties of the code *)

(** ** Which exceptions leave the resolver *)

Lemma expand_never (e0 : exn) (f : Value -> result Value)
  (items acc : list Value) :
  (forall item, f item <> Raise e0) -> expand f items acc <> Raise e0.
Proof.
  intros Hf. revert acc. induction items as [|x items IH]; intros acc; simpl;
    [discriminate|].
  destruct (f x) as [r|e] eqn:E; simpl; [apply IH|].
  intros H. apply (Hf x). congruence.
Qed.

Lemma try_except_handled (handled : list exn) (e0 : exn)
  (body : result Value) :
  existsb (exn_eqb e0) handled = true -> try_except handled body <> Raise e0.
Proof.
  intros H. unfold try_except. destruct body as [v|e]; [discriminate|].
  destruct (existsb (exn_eqb e) handled) eqn:E; [discriminate|].
  intros Heq. injection Heq as ->. congruence.
Qed.

Lemma try_except_passes (handled : list exn) (e0 : exn)
  (body : result Value) :
  body <> Raise e0 -> try_except handled body <> Raise e0.
Proof.
  unfold try_except. destruct body as [v|e]; [discriminate|].
  destruct (existsb (exn_eqb e) handled); [discriminate|auto].
Qed.

Lemma subscript_list_no_type_error (obj : Value) (idx : Z) :
  is_list obj = true -> subscript obj idx <> Raise TypeError.
Proof.
  destruct obj; try discriminate. intros _. simpl.
  destruct (list_item items idx); discriminate.
Qed.

Lemma descend_no_type_error (rt : Runtime) (field : string) (obj : Value) :
  descend rt field obj <> Raise TypeError.
Proof.
  unfold descend. destruct (is_empty field); [discriminate|].
  destruct (dict_get obj field); [discriminate|].
  destruct (is_list obj && isdigit field)%bool eqn:E; [|discriminate].
  apply andb_true_iff in E as [E _]. unfold py_int.
  destruct (parse_int rt field); simpl; [|discriminate].
  apply subscript_list_no_type_error. exact E.
Qed.

Lemma resolve_path_no_type_error (rt : Runtime) (parts : list string) :
  forall obj : Value, resolve_path rt obj parts <> Raise TypeError.
Proof.
  induction parts as [|current remaining IHrem IHdot] using parts_induction;
    intros obj; simp resolve_path; [discriminate|].
  destruct (is_none obj); [discriminate|].
  destruct (index_search current) as [[prefix index_expr]|].
  - cbn zeta. pose proof (descend_no_type_error rt (strip prefix) obj) as Hd.
    destruct (descend rt (strip prefix) obj) as [obj0|e]; simpl;
      [clear Hd|exact Hd].
    destruct (String.eqb index_expr "*").
    + destruct obj0; try discriminate.
      pose proof (expand_never TypeError
                    (fun item => resolve_path rt item remaining) items []
                    (fun item => IHrem item)) as He.
      destruct (expand _ items []) as [rs|e]; simpl; [discriminate|].
      intros Heq. apply He. congruence.
    + destruct (contains ":" index_expr);
        apply try_except_handled; reflexivity.
  - destruct (dict_get obj current) as [v|]; [apply IHrem|].
    destruct (is_list obj && isdigit current)%bool eqn:E.
    + apply andb_true_iff in E as [E _]. apply try_except_passes.
      unfold py_int. destruct (parse_int rt current) as [idx|]; simpl;
        [|discriminate].
      pose proof (subscript_list_no_type_error obj idx E) as Hs.
      destruct (subscript obj idx) as [item|e]; simpl; [apply IHrem|exact Hs].
    + destruct (bool_dec (contains "." current) true) as [Hdot|];
        [|discriminate].
      cbn zeta. apply (IHdot Hdot).
Qed.

(** X1. No [TypeError] ever leaves the entry point, whatever the data and
    the path or paths: a value of the wrong kind for an index, a slice or
    [len] yields [None]. *)
Theorem parse_response_never_type_error (rt : Runtime) (data : Value)
  (paths : Paths) :
  parse_response rt data paths <> Raise TypeError.
Proof.
  destruct paths as [path|ps]; simpl; [apply resolve_path_no_type_error|].
  assert (H : comprehension (fun p => resolve_path rt data (tokenize p)) ps
              <> Raise TypeError).
  { induction ps as [|p ps IH]; simpl; [discriminate|].
    pose proof (resolve_path_no_type_error rt (tokenize p) data) as Hp.
    destruct (resolve_path rt data (tokenize p)) as [v|e]; simpl;
      [|intros Heq; apply Hp; congruence].
    destruct (comprehension _ ps) as [vs|e]; simpl; [discriminate|exact IH]. }
  destruct (comprehension _ ps) as [vs|e]; simpl; [discriminate|].
  intros Heq. apply H. congruence.
Qed.

(** ** Paths without a bracket *)

Lemma contains_lstrip (c : ascii) (ws : ascii -> bool) (s : string) :
  contains c s = false -> contains c (lstrip ws s) = false.
Proof.
  induction s as [|d s IH]; simpl; [reflexivity|].
  intros H. destruct (ws d); [|exact H].
  apply orb_false_iff in H as [_ H]. exact (IH H).
Qed.

Lemma contains_rstrip (c : ascii) (ws : ascii -> bool) (s : string) :
  contains c s = false -> contains c (rstrip ws s) = false.
Proof.
  induction s as [|d s IH]; simpl; [reflexivity|].
  intros H. apply orb_false_iff in H as [Hd H]. specialize (IH H).
  destruct (rstrip ws s).
  - destruct (ws d); simpl; [reflexivity|]. rewrite Hd. reflexivity.
  - simpl in *. rewrite Hd. exact IH.
Qed.

Lemma contains_split_pieces (c sep : ascii) (s : string) :
  contains c s = false ->
  contains c (fst (split_pieces sep s)) = false
  /\ Forall (fun q => contains c q = false) (snd (split_pieces sep s)).
Proof.
  induction s as [|d s IH]; simpl; [auto|].
  intros H. apply orb_false_iff in H as [Hd H]. specialize (IH H).
  destruct (split_pieces sep s) as [p ps]. simpl in IH. destruct IH as [Hp Hps].
  destruct (Ascii.eqb d sep); simpl.
  - split; [reflexivity|]. constructor; assumption.
  - rewrite Hd, Hp. split; [reflexivity|exact Hps].
Qed.

(** A character that is not in a path is in none of its segments. *)
Lemma contains_tokenize (c : ascii) (path : string) :
  contains c path = false ->
  Forall (fun part => contains c part = false) (tokenize path).
Proof.
  intros H. unfold tokenize, split.
  pose proof (contains_split_pieces c "." path H) as [Hp Hps].
  destruct (split_pieces "." path) as [p ps]. simpl in Hp, Hps.
  apply Forall_forall. intros part Hin.
  apply filter_In in Hin as [Hin _]. apply in_map_iff in Hin as (q & <- & Hq).
  unfold strip. apply contains_rstrip, contains_lstrip.
  destruct Hq as [<-|Hq]; [exact Hp|].
  exact (proj1 (Forall_forall _ _) Hps q Hq).
Qed.

Lemma no_open_no_bracket (s : string) :
  contains "[" s = false -> index_search s = None.
Proof.
  induction s as [|c s IH]; simpl; [reflexivity|].
  intros H. apply orb_false_iff in H as [Hc H].
  rewrite Hc, (IH H). reflexivity.
Qed.

Lemma tokenize_no_bracket (path : string) :
  contains "[" path = false ->
  Forall (fun part => index_search part = None) (tokenize path).
Proof.
  intros H. eapply Forall_impl; [|apply (contains_tokenize "[" path H)].
  intros part. apply no_open_no_bracket.
Qed.

(** X2. A path without ['['] never raises: the entry point returns a value
    for it on every data; and for a list of such paths it returns the list
    of their results. *)
Theorem plain_paths_always_return (rt : Runtime) (data : Value) :
  (forall path : string,
      contains "[" path = false ->
      exists v : Value, parse_response rt data (PathStr path) = Ok v)
  /\ (forall paths : list string,
         Forall (fun path => contains "[" path = false) paths ->
         exists vs : list Value,
           length vs = length paths
           /\ parse_response rt data (PathList paths) = Ok (VList vs)).
Proof.
  assert (Hone : forall path, contains "[" path = false ->
                   exists v, resolve_path rt data (tokenize path) = Ok v).
  { intros path H. apply bracket_free_paths_return.
    apply tokenize_no_bracket. exact H. }
  split; [exact Hone|].
  intros paths H. simpl.
  induction H as [|p ps Hp _ IH].
  - exists []. split; reflexivity.
  - destruct (Hone p Hp) as [v Hv]. destruct IH as (vs & Hlen & Hvs).
    exists (v :: vs). split; [simpl; congruence|]. simpl. rewrite Hv. simpl.
    destruct (comprehension _ ps) as [ws|e]; simpl in Hvs |- *;
      [|discriminate]. congruence.
Qed.

Lemma plain_paths_always_return_witness :
  exists v : Value,
    parse_response cpython (VList [VInt 1; VInt 2]) (PathStr "7.x. 2") = Ok v.
Proof.
  refine (proj1 (plain_paths_always_return cpython (VList [VInt 1; VInt 2]))
            "7.x. 2" _).
  reflexivity.
Defined.

(** ** The tokenizer *)

Lemma rstrip_idempotent (ws : ascii -> bool) (s : string) :
  rstrip ws (rstrip ws s) = rstrip ws s.
Proof.
  induction s as [|c s IH]; simpl; [reflexivity|].
  destruct (rstrip ws s) as [|d r] eqn:E.
  - destruct (ws c) eqn:Hc; simpl; [reflexivity|]. rewrite Hc. reflexivity.
  - simpl in IH |- *. rewrite IH. reflexivity.
Qed.

Lemma lstrip_starts_clean (ws : ascii -> bool) (s : string) :
  starts_clean ws (lstrip ws s).
Proof.
  induction s as [|c s IH]; simpl; [exact I|].
  destruct (ws c) eqn:E; [exact IH|exact E].
Qed.

Lemma rstrip_starts_clean (ws : ascii -> bool) (s : string) :
  starts_clean ws s -> starts_clean ws (rstrip ws s).
Proof.
  destruct s as [|c s]; simpl; [auto|]. intros Hc.
  destruct (rstrip ws s); [rewrite Hc|]; exact Hc.
Qed.

Lemma lstrip_clean (ws : ascii -> bool) (s : string) :
  starts_clean ws s -> lstrip ws s = s.
Proof. destruct s as [|c s]; simpl; [reflexivity|]. intros ->. reflexivity. Qed.

Lemma strip_idempotent (s : string) : strip (strip s) = strip s.
Proof.
  unfold strip.
  rewrite (lstrip_clean is_space (rstrip is_space (lstrip is_space s))).
  - apply rstrip_idempotent.
  - apply rstrip_starts_clean, lstrip_starts_clean.
Qed.

(** X3. Every segment the tokenizer hands to the resolver is non-empty,
    has no white space at either end, and holds no dot.  In particular
    the re-split of lines 94-96 is never reached from [parse_response]. *)
Theorem tokenize_segments_clean (path : string) :
  Forall (fun part => is_empty part = false
                      /\ strip part = part
                      /\ contains "." part = false)
    (tokenize path).
Proof.
  pose proof (tokenize_dotless path) as Hd.
  apply Forall_forall. intros part Hin.
  split; [|split].
  - unfold tokenize in Hin. apply filter_In in Hin as [_ H].
    destruct (is_empty part); [discriminate|reflexivity].
  - unfold tokenize in Hin. apply filter_In in Hin as [Hin _].
    apply in_map_iff in Hin as (q & <- & _). apply strip_idempotent.
  - exact (proj1 (Forall_forall _ _) Hd part Hin).
Qed.

Lemma split_pieces_app (sep : ascii) (a b : string) :
  split_pieces sep (a ++ String sep b)%string
  = (fst (split_pieces sep a),
      snd (split_pieces sep a) ++ split sep b).
Proof.
  induction a as [|c a IH]; simpl.
  - rewrite Ascii.eqb_refl. unfold split.
    destruct (split_pieces sep b) as [p ps]. reflexivity.
  - rewrite IH. destruct (split_pieces sep a) as [p ps]. simpl.
    destruct (Ascii.eqb c sep); reflexivity.
Qed.

Lemma split_app (sep : ascii) (a b : string) :
  split sep (a ++ String sep b)%string = split sep a ++ split sep b.
Proof.
  unfold split at 1 2. rewrite split_pieces_app.
  destruct (split_pieces sep a) as [p ps]. reflexivity.
Qed.

Lemma tokenize_app_dot (a b : string) :
  tokenize (a ++ "." ++ b)%string = tokenize a ++ tokenize b.
Proof.
  unfold tokenize.
  change (a ++ "." ++ b)%string with (a ++ String "." b)%string.
  rewrite split_app, map_app, filter_app. reflexivity.
Qed.

(** X4. Tokenizing two paths joined by a dot gives the segments of the
    first followed by the segments of the second, so doubled, leading and
    trailing dots change nothing; and segments that are non-empty, trimmed
    and free of dots come back as they are when the path made of them,
    with a dot after each, is tokenized. *)
Theorem tokenize_join :
  (forall a b : string,
      tokenize (a ++ "." ++ b)%string = tokenize a ++ tokenize b)
  /\ (forall parts : list string,
         Forall (fun q => is_empty q = false /\ strip q = q
                          /\ contains "." q = false) parts ->
         tokenize (dotted parts) = parts).
Proof.
  split; [exact tokenize_app_dot|].
  induction 1 as [|q qs (Hne & Hs & Hd) _ IH]; [reflexivity|].
  cbn [dotted]. rewrite tokenize_app_dot, IH.
  rewrite (tokenize_piece q Hd Hs Hne). reflexivity.
Qed.

Lemma tokenize_join_witness :
  tokenize (dotted ["a"; "b[0]"; "c d"]) = ["a"; "b[0]"; "c d"].
Proof.
  apply (proj2 tokenize_join ["a"; "b[0]"; "c d"]).
  repeat constructor.
Defined.

(** ** Plain paths compose *)

Lemma resolve_path_app (rt : Runtime) (p1 p2 : list string) :
  Forall (fun p => index_search p = None) p1 ->
  Forall (fun p => index_search p = None) p2 ->
  forall obj : Value,
    resolve_path rt obj (p1 ++ p2)
    = (v <- resolve_path rt obj p1 ;; resolve_path rt v p2).
Proof.
  intros H1 H2. revert H1.
  induction p1 as [|current remaining IHrem IHdot] using parts_induction;
    intros H1 obj.
  { simp resolve_path. reflexivity. }
  inversion H1 as [|? ? Hcur Hrem]; subst.
  cbn [app]. rewrite !resolve_path_equation_2. rewrite Hcur.
  destruct (is_none obj) eqn:Hn.
  { destruct obj; try discriminate. cbn [bind]. rewrite resolve_path_none.
    reflexivity. }
  destruct (dict_get obj current) as [v|]; [apply IHrem; exact Hrem|].
  destruct (is_list obj && isdigit current)%bool.
  - unfold py_int. destruct (parse_int rt current) as [idx|];
      cbn [bind try_except existsb];
      [|cbn; rewrite resolve_path_none; reflexivity].
    destruct (subscript obj idx) as [item|e]; cbn [bind].
    + rewrite (IHrem Hrem item).
      destruct (bracket_free_paths_return rt remaining Hrem item) as [v Hv].
      rewrite Hv. cbn [bind try_except].
      destruct (bracket_free_paths_return rt p2 H2 v) as [w Hw].
      rewrite Hw. reflexivity.
    + unfold try_except.
      destruct (existsb (exn_eqb e) [ValueError; IndexError]); cbn [bind];
        [rewrite resolve_path_none|]; reflexivity.
  - destruct (bool_dec (contains "." current) true) as [Hdot|].
    + cbn zeta. rewrite app_assoc. apply (IHdot Hdot).
      apply Forall_app. split; [apply split_no_bracket; exact Hcur|exact Hrem].
    + cbn [bind]. rewrite resolve_path_none. reflexivity.
Qed.

(** X5. Plain paths compose: for two paths without ['['], resolving the
    first, a dot, and the second is resolving the second on what the first
    yields. *)
Theorem plain_paths_compose (rt : Runtime) (data : Value) (a b : string) :
  contains "[" a = false -> contains "[" b = false ->
  parse_response rt data (PathStr (a ++ "." ++ b)%string)
  = (v <- parse_response rt data (PathStr a) ;;
     parse_response rt v (PathStr b)).
Proof.
  intros Ha Hb. unfold parse_response. rewrite tokenize_app_dot.
  apply resolve_path_app; apply tokenize_no_bracket; assumption.
Qed.

Lemma plain_paths_compose_witness :
  parse_response cpython
    (VDict [("a", VList [VDict [("b", VInt 5)]])]) (PathStr ("a.0" ++ "." ++ "b"))
  = (v <- parse_response cpython
            (VDict [("a", VList [VDict [("b", VInt 5)]])]) (PathStr "a.0") ;;
     parse_response cpython v (PathStr "b")).
Proof.
  apply (plain_paths_compose cpython
           (VDict [("a", VList [VDict [("b", VInt 5)]])]) "a.0" "b");
    reflexivity.
Defined.

(** ** Values with nothing inside *)

Lemma numbers_resolve_to_none (rt : Runtime) (parts : list string) :
  parts <> [] ->
  forall obj : Value, is_number obj = true ->
                      resolve_path rt obj parts = Ok VNone.
Proof.
  induction parts as [|current remaining IHrem IHdot] using parts_induction;
    intros Hne obj Hobj; [contradiction|].
  rewrite resolve_path_equation_2.
  assert (Hd : forall field, descend rt field obj = Ok obj).
  { intros field. unfold descend. destruct (is_empty field); [reflexivity|].
    destruct obj; try discriminate; reflexivity. }
  assert (Hlen : py_len obj = Raise TypeError)
    by (destruct obj; try discriminate; reflexivity).
  assert (Hsub : forall idx, subscript obj idx = Raise TypeError)
    by (intros idx; destruct obj; try discriminate; reflexivity).
  assert (Hsl : forall a b c, slice_items rt obj a b c = Raise TypeError)
    by (intros a b c; destruct obj; try discriminate; reflexivity).
  assert (Hint : forall s, py_int rt s = Raise ValueError \/
                           exists z, py_int rt s = Ok z).
  { intros s. unfold py_int. destruct (parse_int rt s); eauto. }
  assert (Hbound : forall indices k d,
             d = Raise TypeError \/ (exists z, d = Ok z) ->
             slice_bound rt indices k d = Raise ValueError
             \/ slice_bound rt indices k d = Raise TypeError
             \/ exists z, slice_bound rt indices k d = Ok z).
  { intros indices k d Hdef. unfold slice_bound.
    assert (Hd' : d = Raise ValueError \/ d = Raise TypeError
                  \/ exists z, d = Ok z) by tauto.
    destruct (nth_error indices k) as [s|]; [|exact Hd'].
    destruct (is_empty s); [exact Hd'|].
    destruct (Hint s) as [->|[z ->]]; eauto. }
  replace (is_none obj) with false by (destruct obj; try discriminate; reflexivity).
  replace (dict_get obj current) with (@None Value)
    by (destruct obj; try discriminate; reflexivity).
  replace (is_list obj) with false by (destruct obj; try discriminate; reflexivity).
  destruct (index_search current) as [[prefix index_expr]|].
  - cbn zeta. rewrite Hd. cbn [bind].
    destruct (String.eqb index_expr "*");
      [destruct obj; try discriminate; reflexivity|].
    destruct (contains ":" index_expr).
    + cbn zeta. rewrite Hlen.
      destruct (Hbound (split ":" index_expr) 0%nat (Ok 0)
                  (or_intror (ex_intro _ 0 eq_refl))) as [->|[->|[a ->]]];
        try reflexivity.
      destruct (Hbound (split ":" index_expr) 1%nat (Raise TypeError)
                  (or_introl eq_refl)) as [->|[->|[b ->]]];
        try reflexivity.
      destruct (Hbound (split ":" index_expr) 2%nat (Ok 1)
                  (or_intror (ex_intro _ 1 eq_refl))) as [->|[->|[c ->]]];
        try reflexivity.
      cbn [bind]. rewrite Hsl. reflexivity.
    + destruct (Hint index_expr) as [->|[idx ->]]; [reflexivity|].
      cbn [bind]. rewrite Hsub. reflexivity.
  - cbn [andb].
    destruct (bool_dec (contains "." current) true) as [Hdot|]; [|reflexivity].
    cbn zeta. apply (IHdot Hdot); [|exact Hobj].
    unfold split. destruct (split_pieces "." current). discriminate.
Qed.

Lemma strings_resolve_to_none (rt : Runtime) (parts : list string) :
  parts <> [] ->
  Forall (fun p => index_search p = None) parts ->
  forall s : string, resolve_path rt (VStr s) parts = Ok VNone.
Proof.
  induction parts as [|current remaining IHrem IHdot] using parts_induction;
    intros Hne Hparts s; [contradiction|].
  inversion Hparts as [|? ? Hcur Hrem]; subst.
  rewrite resolve_path_equation_2, Hcur. cbn [is_none dict_get is_list andb].
  destruct (bool_dec (contains "." current) true) as [Hdot|]; [|reflexivity].
  cbn zeta. apply (IHdot Hdot).
  - unfold split. destruct (split_pieces "." current). discriminate.
  - apply Forall_app. split; [apply split_no_bracket; exact Hcur|exact Hrem].
Qed.

(** X6. A number or a boolean has nothing inside: every path with at
    least one segment yields [None] on it, brackets included, and none
    raises.  The same holds of a string for the paths without ['[']. *)
Theorem scalars_have_nothing_inside (rt : Runtime) (data : Value)
  (path : string) :
  tokenize path <> [] ->
  (is_number data = true -> parse_response rt data (PathStr path) = Ok VNone)
  /\ (forall s : string,
         contains "[" path = false ->
         parse_response rt (VStr s) (PathStr path) = Ok VNone).
Proof.
  intros Hne. split.
  - intros Hnum. apply numbers_resolve_to_none; assumption.
  - intros s Hb. apply strings_resolve_to_none; [exact Hne|].
    apply tokenize_no_bracket. exact Hb.
Qed.

Lemma scalars_have_nothing_inside_witness :
  parse_response cpython (VInt 7) (PathStr "a[1:2].b") = Ok VNone
  /\ parse_response cpython (VStr "<html>") (PathStr "data.items") = Ok VNone.
Proof.
  split.
  - refine (proj1 (scalars_have_nothing_inside cpython (VInt 7) "a[1:2].b" _) _);
      [discriminate|reflexivity].
  - refine (proj2 (scalars_have_nothing_inside cpython VNone "data.items" _)
              "<html>" _); [discriminate|reflexivity].
Defined.

(** ** Two ways to index a list *)

Lemma digit_char_plain (c : ascii) :
  is_digit_char c = true ->
  Ascii.eqb c "[" = false /\ Ascii.eqb c "]" = false
  /\ Ascii.eqb c newline = false /\ Ascii.eqb c ":" = false.
Proof.
  destruct c as [[] [] [] [] [] [] [] []]; vm_compute; intros H;
    try discriminate H; repeat split.
Qed.

Lemma digits_plain (k : string) :
  all_chars is_digit_char k = true ->
  contains "[" k = false /\ contains ":" k = false
  /\ scan_group (k ++ "]")%string = Some k.
Proof.
  induction k as [|c k IH]; simpl; [auto|].
  intros H. apply andb_true_iff in H as [Hc Hk].
  destruct (IH Hk) as (H1 & H2 & H3).
  destruct (digit_char_plain c Hc) as (E1 & E2 & E3 & E4).
  rewrite E1, E2, E3, E4, H1, H2, H3. auto.
Qed.

Lemma try_except_wider (body : result Value) :
  body <> Raise TypeError ->
  try_except [ValueError; TypeError; IndexError] body
  = try_except [ValueError; IndexError] body.
Proof.
  destruct body as [v|[]]; try reflexivity. intros H. contradiction.
Qed.

Lemma digit_key_resolves (rt : Runtime) (items : list Value) (k : string)
  (remaining : list string) :
  isdigit k = true ->
  resolve_path rt (VList items) (k :: remaining)
  = match parse_int rt k with
    | None => Ok VNone
    | Some i =>
        match list_item items i with
        | None => Ok VNone
        | Some item =>
            try_except [ValueError; IndexError]
              (resolve_path rt item remaining)
        end
    end.
Proof.
  intros Hk. pose proof Hk as Hk'. unfold isdigit in Hk'.
  apply andb_true_iff in Hk' as [_ Hall].
  destruct (digits_plain k Hall) as (Hopen & _ & _).
  rewrite resolve_path_equation_2, (no_open_no_bracket k Hopen).
  cbn [is_none dict_get is_list andb]. rewrite Hk.
  unfold py_int. destruct (parse_int rt k) as [i|]; [|reflexivity].
  cbn [bind subscript]. destruct (list_item items i); reflexivity.
Qed.

Lemma digit_key_as_bracket (rt : Runtime) (items : list Value) (k : string)
  (remaining : list string) :
  isdigit k = true ->
  resolve_path rt (VList items) (k :: remaining)
  = resolve_path rt (VList items) (("[" ++ k ++ "]")%string :: remaining).
Proof.
  intros Hk. pose proof Hk as Hk'. unfold isdigit in Hk'.
  apply andb_true_iff in Hk' as [Hne Hall].
  destruct (digits_plain k Hall) as (Hopen & Hcolon & Hscan).
  rewrite !resolve_path_equation_2.
  rewrite (no_open_no_bracket k Hopen).
  cbn [is_none dict_get is_list andb]. rewrite Hk.
  change (index_search ("[" ++ k ++ "]")%string)
    with (match scan_group (k ++ "]")%string with
          | Some g => Some (EmptyString, g)
          | None =>
              match index_search (k ++ "]")%string with
              | Some (pre, g) => Some (String "[" pre, g)
              | None => None
              end
          end).
  rewrite Hscan. cbn zeta.
  replace (descend rt (strip EmptyString) (VList items))
    with (Ok (VList items)) by reflexivity.
  cbn [bind]. rewrite Hcolon.
  replace (String.eqb k "*") with false.
  2:{ destruct (String.eqb_spec k "*") as [->|]; [discriminate Hall|reflexivity]. }
  symmetry. apply try_except_wider.
  unfold py_int. destruct (parse_int rt k) as [idx|]; cbn [bind];
    [|discriminate].
  cbn [subscript]. destruct (list_item items idx) as [item|]; cbn [bind];
    [apply resolve_path_no_type_error|discriminate].
Qed.

(** X7. On a list, a segment made of digits and the same digits in a
    bracket resolve alike, whatever follows: ["a.0"] is ["a[0]"].  Both
    yield [None] when [int] refuses the digits or the index lies past the
    end, and otherwise what the tail yields on the element at that index,
    the element itself when there is no tail. *)
Theorem digit_key_is_bracket_index (rt : Runtime) (items : list Value)
  (k : string) (remaining : list string) :
  isdigit k = true ->
  let by_key := resolve_path rt (VList items) (k :: remaining) in
  let by_bracket :=
    resolve_path rt (VList items) (("[" ++ k ++ "]")%string :: remaining) in
  by_key = by_bracket
  /\ by_key
     = match parse_int rt k with
       | None => Ok VNone
       | Some i =>
           match list_item items i with
           | None => Ok VNone
           | Some item =>
               try_except [ValueError; IndexError]
                 (resolve_path rt item remaining)
           end
       end
  /\ (forall i : Z,
         parse_int rt k = Some i -> Z.of_nat (length items) <= i ->
         by_key = Ok VNone /\ by_bracket = Ok VNone)
  /\ (forall (i : Z) (item : Value),
         parse_int rt k = Some i -> 0 <= i ->
         nth_error items (Z.to_nat i) = Some item -> remaining = [] ->
         by_key = Ok item /\ by_bracket = Ok item).
Proof.
  intros Hk by_key by_bracket.
  assert (Hsame : by_key = by_bracket) by (apply digit_key_as_bracket; exact Hk).
  assert (Hval := digit_key_resolves rt items k remaining Hk).
  fold by_key in Hval.
  split; [exact Hsame|]. split; [exact Hval|]. split.
  - intros i Hi Hfar. rewrite <- Hsame, Hval, Hi.
    assert (Hnone : list_item items i = None).
    { unfold list_item. destruct (Z.ltb_spec i 0); [lia|].
      destruct (Z.leb_spec 0 i); [|reflexivity].
      destruct (Z.ltb_spec i (Z.of_nat (length items))); [lia|reflexivity]. }
    rewrite Hnone. split; reflexivity.
  - intros i item Hi Hpos Hnth ->. rewrite <- Hsame, Hval, Hi.
    assert (Hsome : list_item items i = Some item).
    { assert (Hlt : (Z.to_nat i < length items)%nat)
        by (apply nth_error_Some; congruence).
      unfold list_item. destruct (Z.ltb_spec i 0); [lia|].
      destruct (Z.leb_spec 0 i); [|lia].
      destruct (Z.ltb_spec i (Z.of_nat (length items))); [|lia].
      exact Hnth. }
    rewrite Hsome. simp resolve_path. split; reflexivity.
Qed.

Lemma digit_key_is_bracket_index_witness :
  (resolve_path cpython (VList [VInt 9; VInt 8; VInt 7]) ["5"] = Ok VNone
   /\ resolve_path cpython (VList [VInt 9; VInt 8; VInt 7]) ["[5]"] = Ok VNone)
  /\ (resolve_path cpython (VList [VInt 9; VInt 8; VInt 7]) ["2"]
      = Ok (VInt 7)
      /\ resolve_path cpython (VList [VInt 9; VInt 8; VInt 7]) ["[2]"]
         = Ok (VInt 7)).
Proof.
  split.
  - apply (proj1 (proj2 (proj2
             (digit_key_is_bracket_index cpython [VInt 9; VInt 8; VInt 7]
                "5" [] eq_refl))) 5); [reflexivity|simpl; lia].
  - apply (proj2 (proj2 (proj2
             (digit_key_is_bracket_index cpython [VInt 9; VInt 8; VInt 7]
                "2" [] eq_refl))) 2 (VInt 7));
      first [reflexivity|lia].
Defined.

(** ** The whole slice and the wildcard *)

Lemma py_slice_full {A} (l : list A) :
  py_slice l 0 (Z.of_nat (length l)) 1 = l.
Proof.
  apply nth_error_ext. intros n.
  rewrite (py_slice_nth l 0 (Z.of_nat (length l)) 1 n) by discriminate.
  cbn zeta. pose proof (Nat2Z.is_nonneg (length l)) as Hlen.
  assert (H0 : clip_bound (Z.of_nat (length l)) 1 0 = 0).
  { unfold clip_bound. change (0 <? 0) with false. change (0 <? 1) with true.
    cbn iota. lia. }
  assert (H1 : clip_bound (Z.of_nat (length l)) 1 (Z.of_nat (length l))
               = Z.of_nat (length l)).
  { unfold clip_bound. change (0 <? 1) with true. cbn iota.
    destruct (Z.ltb_spec (Z.of_nat (length l)) 0); lia. }
  rewrite H0, H1. unfold before_end. change (0 <? 1) with true. cbn iota.
  replace (Z.to_nat (0 + Z.of_nat n * 1)) with n by lia.
  destruct (Z.ltb_spec (0 + Z.of_nat n * 1) (Z.of_nat (length l)));
    [reflexivity|].
  symmetry. apply nth_error_None. lia.
Qed.

(** X8. On a list the whole slice ["[:]"] is the wildcard ["[*]"] inside
    the slice's [try]: the same elements in the same order, the same
    splicing of the results, except that a [ValueError] the wildcard lets
    out is [None] under the slice. *)
Theorem whole_slice_is_guarded_wildcard (rt : Runtime) (items : list Value)
  (remaining : list string) :
  resolve_path rt (VList items) ("[:]" :: remaining)
  = try_except [ValueError; TypeError]
      (resolve_path rt (VList items) ("[*]" :: remaining)).
Proof.
  rewrite (resolve_slice rt (VList items) "[:]" EmptyString ":" items remaining
             eq_refl eq_refl eq_refl).
  replace (slice_bounds rt ":" (Z.of_nat (length items)))
    with (Some (0, Z.of_nat (length items), 1)) by reflexivity.
  cbn [Z.eqb]. rewrite py_slice_full.
  rewrite (resolve_path_equation_2 rt (VList items) "[*]" remaining).
  reflexivity.
Qed.

(** ** What the resolver does to the store *)

Lemma h_try_store (handled : list exn) (out : result ref * heap) :
  snd (h_try handled out) = snd out.
Proof.
  destruct out as [[x|e] h]; simpl; [reflexivity|].
  destruct (existsb (exn_eqb e) handled); reflexivity.
Qed.

Lemma plain_parts_leave_store (rt : Runtime) (parts : list string) :
  Forall (fun p => index_search p = None) parts ->
  forall (obj : ref) (h : heap), snd (resolve_path_h rt obj parts h) = h.
Proof.
  induction parts as [|current remaining IHrem IHdot] using parts_induction;
    intros Hparts obj h.
  { simp resolve_path_h. reflexivity. }
  inversion Hparts as [|? ? Hcur Hrem]; subst.
  rewrite resolve_path_h_equation_2, Hcur.
  destruct (is_rnone obj); [reflexivity|].
  destruct (h_dict_get h obj current) as [x|]; [apply IHrem; exact Hrem|].
  destruct (h_is_list h obj && isdigit current)%bool.
  - rewrite h_try_store.
    destruct (idx <- py_int rt current ;; h_subscript h obj idx) as [item|e];
      [apply IHrem; exact Hrem|reflexivity].
  - destruct (bool_dec (contains "." current) true) as [Hdot|]; [|reflexivity].
    cbn zeta. apply (IHdot Hdot).
    apply Forall_app. split; [apply split_no_bracket; exact Hcur|exact Hrem].
Qed.

(** X9. A path without ['['] neither writes nor allocates: the store is
    the same after the call, so what is returned is a scalar or a list or
    dict of the data themselves, not a copy; and it stands for the result
    of the resolver over values. *)
Theorem plain_path_returns_part_of_data (rt : Runtime) (h : heap)
  (data : ref) (v : Value) (path : string) :
  contains "[" path = false ->
  repr h nowhere data v ->
  exists (x : ref) (w : Value),
    parse_response_h rt data (PathStr path) h = (Ok x, h)
    /\ parse_response rt v (PathStr path) = Ok w
    /\ repr h nowhere x w.
Proof.
  intros Hplain Hdata.
  pose proof (tokenize_no_bracket path Hplain) as Htok.
  destruct (bracket_free_paths_return rt (tokenize path) Htok v) as [w Hw].
  destruct (parse_response_h_refines rt nowhere h data v (PathStr path))
    as [_ Ho]; [intros ? []|exact Hdata|].
  pose proof (plain_parts_leave_store rt (tokenize path) Htok data h) as Hst.
  simpl in Ho, Hst |- *.
  destruct (resolve_path_h rt data (tokenize path) h) as [r h'].
  simpl in Ho, Hst. subst h'. rewrite Hw in Ho |- *.
  unfold same_outcome, same_result in Ho.
  destruct r as [x|e]; [|contradiction].
  exists x, w. repeat split. exact Ho.
Qed.

Lemma plain_path_returns_part_of_data_witness :
  exists (x : ref) (w : Value),
    parse_response_h cpython (RObj 1%nat) (PathStr "a")
      [CList [RInt 5]; CDict [("a", RObj 0%nat)]]
    = (Ok x, [CList [RInt 5]; CDict [("a", RObj 0%nat)]])
    /\ parse_response cpython (VDict [("a", VList [VInt 5])]) (PathStr "a")
       = Ok w
    /\ repr [CList [RInt 5]; CDict [("a", RObj 0%nat)]] nowhere x w.
Proof.
  apply (plain_path_returns_part_of_data cpython
           [CList [RInt 5]; CDict [("a", RObj 0%nat)]] (RObj 1%nat)
           (VDict [("a", VList [VInt 5])]) "a").
  - reflexivity.
  - apply repr_dict with (entries := [("a", RObj 0%nat)]);
      [intros []|reflexivity|].
    constructor; [|constructor]. split; [reflexivity|].
    apply repr_list with (items := [RInt 5]);
      [intros []|reflexivity|repeat constructor].
Defined.

(** X10. What a wildcard or slice segment returns is [None] or a list the
    call has just made, at the first free address of the store: never a
    list of the data, not even for ["[:]"] or ["[*]"] over a list of
    scalars. *)
Theorem expansion_returns_new_list (rt : Runtime) (h : heap) (obj x : ref)
  (current prefix index_expr : string) (remaining : list string) :
  index_search current = Some (prefix, index_expr) ->
  index_expr = "*" \/ contains ":" index_expr = true ->
  fst (resolve_path_h rt obj (current :: remaining) h) = Ok x ->
  x = RNone \/ x = RObj (length h).
Proof.
  intros Hs Hkind. rewrite resolve_path_h_equation_2, Hs.
  destruct (is_rnone obj) eqn:Hn.
  { destruct obj; try discriminate. simpl. intros H. injection H as <-. left. reflexivity. }
  cbn zeta.
  destruct (h_descend rt h (strip prefix) obj) as [obj0|e]; [|discriminate].
  destruct (String.eqb_spec index_expr "*") as [->|Hstar].
  - destruct (read_list h obj0) as [items|]; [|simpl; intros H; injection H as <-; left; reflexivity].
    destruct obj0; try (simpl; intros H; injection H as <-; left; reflexivity).
    cbn zeta. destruct (h_for_each _ l 0 (length items) _) as [[u|e] h'];
      simpl; [|discriminate].
    intros H. injection H as <-. right. reflexivity.
  - destruct Hkind as [->|Hcolon]; [contradiction|]. rewrite Hcolon.
    cbn zeta.
    destruct (start <- slice_bound rt (split ":" index_expr) 0 (Ok 0) ;;
              stop <- slice_bound rt (split ":" index_expr) 1 (h_len h obj0) ;;
              step <- slice_bound rt (split ":" index_expr) 2 (Ok 1) ;;
              Ok (start, stop, step)) as [[[start stop] step]|e].
    + cbn zeta.
      destruct (h_slice_items rt (h ++ [CList []]) obj0 start stop step)
        as [items|e].
      * destruct (h_for_items _ items _) as [[u|e] h']; simpl.
        -- intros H. injection H as <-. right. reflexivity.
        -- destruct e; simpl;
             first [discriminate
                   |intros H; injection H as <-; left; reflexivity].
      * destruct e; simpl;
          first [discriminate
                |intros H; injection H as <-; left; reflexivity].
    + destruct e; simpl;
        first [discriminate
              |intros H; injection H as <-; left; reflexivity].
Qed.

Lemma expansion_returns_new_list_witness :
  RObj 1%nat = RNone \/ RObj 1%nat = RObj (length [CList [RInt 1; RInt 2]]).
Proof.
  apply (expansion_returns_new_list cpython [CList [RInt 1; RInt 2]]
           (RObj 0%nat) (RObj 1%nat) "[:]" EmptyString ":" []).
  - reflexivity.
  - right. reflexivity.
  - reflexivity.
Defined.

(** ** [handle_response] *)

(** X12. On an [ok] response, when nothing is asked (no path, the empty
    path, the empty list of paths, or a path of dots and white space
    only), what [handle_response] gives is the whole body: the decoded
    value, the text itself when the body is no JSON, and the decoder's
    own exception when it raises one. *)
Theorem absent_or_blank_paths_return_body (texts : Texts)
  (loads : string -> decoding) (rt : Runtime) (response : Response)
  (paths : option Paths) :
  ok response = true ->
  asks_nothing paths ->
  handle_response texts loads rt response paths
  = match loads (content response) with
    | Decoded v => Returned v
    | NotJson => Returned (VStr (content response))
    | Refused e => Escaped e
    end.
Proof.
  intros Hok Hnothing. unfold handle_response. rewrite Hok. cbn [negb].
  destruct (loads (content response)) as [v| |e]; [| |reflexivity].
  - destruct paths as [[path|ps]|]; simpl in Hnothing; [| |reflexivity].
    + destruct (no_paths (Some (PathStr path))); [reflexivity|].
      unfold parse_response. rewrite (tokenize_blank path Hnothing).
      simp resolve_path. reflexivity.
    + subst ps. reflexivity.
  - destruct paths as [[path|ps]|]; simpl in Hnothing; [| |reflexivity].
    + destruct (no_paths (Some (PathStr path))); [reflexivity|].
      unfold parse_response. rewrite (tokenize_blank path Hnothing).
      simp resolve_path. reflexivity.
    + subst ps. reflexivity.
Qed.

Lemma absent_or_blank_paths_return_body_witness :
  handle_response {| status_text := "E "; detail_text := " D " |}
    (fun _ => Decoded (VDict [("a", VInt 1)])) cpython
    {| ok := true; status := 200; reason := "OK"; content := "{}" |}
    (Some (PathStr " . "))
  = Returned (VDict [("a", VInt 1)]).
Proof.
  apply (absent_or_blank_paths_return_body
           {| status_text := "E "; detail_text := " D " |}
           (fun _ => Decoded (VDict [("a", VInt 1)])) cpython
           {| ok := true; status := 200; reason := "OK"; content := "{}" |}
           (Some (PathStr " . "))); reflexivity.
Defined.

Lemma comprehension_plain (rt : Runtime) (data : Value) (ps : list string) :
  Forall (fun path => contains "[" path = false) ps ->
  exists vs : list Value,
    comprehension (fun p => resolve_path rt data (tokenize p)) ps = Ok vs.
Proof.
  induction 1 as [|p ps Hp _ [vs IH]]; simpl; [exists []; reflexivity|].
  destruct (bracket_free_paths_return rt (tokenize p)
              (tokenize_no_bracket p Hp) data) as [v Hv].
  rewrite Hv, IH. exists (v :: vs). reflexivity.
Qed.

Lemma plain_paths_return (rt : Runtime) (data : Value) (p : Paths) :
  plain_paths (Some p) -> exists v : Value, parse_response rt data p = Ok v.
Proof.
  destruct p as [path|ps]; simpl; intros Hplain.
  - apply bracket_free_paths_return, tokenize_no_bracket. exact Hplain.
  - destruct (comprehension_plain rt data ps Hplain) as [vs Hvs].
    rewrite Hvs. eexists; reflexivity.
Qed.

(** X13. On an [ok] response, paths without ['['] get a value whenever
    the decoder gives one or reports that the body is no JSON; the one
    exception that can leave [handle_response] then is the decoder's own,
    which line 164 does not catch. *)
Theorem plain_paths_are_answered (texts : Texts)
  (loads : string -> decoding) (rt : Runtime) (response : Response)
  (paths : option Paths) :
  ok response = true ->
  plain_paths paths ->
  match loads (content response) with
  | Refused e => handle_response texts loads rt response paths = Escaped e
  | _ => exists v : Value,
           handle_response texts loads rt response paths = Returned v
  end.
Proof.
  intros Hok Hplain. unfold handle_response. rewrite Hok. cbn [negb].
  destruct (loads (content response)) as [v| |e]; [| |reflexivity].
  - destruct paths as [p|]; [|eexists; reflexivity].
    destruct (no_paths (Some p)); [eexists; reflexivity|].
    destruct (plain_paths_return rt v p Hplain) as [w Hw].
    rewrite Hw. eexists; reflexivity.
  - destruct paths as [p|]; [|eexists; reflexivity].
    destruct (no_paths (Some p)); [eexists; reflexivity|].
    destruct (plain_paths_return rt (VStr (content response)) p Hplain)
      as [w Hw].
    rewrite Hw. eexists; reflexivity.
Qed.

Lemma plain_paths_are_answered_witness :
  exists v : Value,
    handle_response {| status_text := "E "; detail_text := " D " |}
      (fun _ => Decoded (VList [VInt 1])) cpython
      {| ok := true; status := 200; reason := "OK"; content := "[1]" |}
      (Some (PathList ["5"; "a.b"]))
    = Returned v.
Proof.
  apply (plain_paths_are_answered
           {| status_text := "E "; detail_text := " D " |}
           (fun _ => Decoded (VList [VInt 1])) cpython
           {| ok := true; status := 200; reason := "OK"; content := "[1]" |}
           (Some (PathList ["5"; "a.b"]))).
  - reflexivity.
  - repeat constructor.
Defined.

(** X14. On an [ok] response whose body is no JSON, a path without ['[']
    that has a segment is answered by [None]: the text is the data, and a
    text has no keys.  A body that decodes to a number or a boolean
    answers [None] to every path that has a segment. *)
Theorem bodies_without_inside_answer_none (texts : Texts)
  (loads : string -> decoding) (rt : Runtime) (response : Response)
  (path : string) :
  ok response = true ->
  tokenize path <> [] ->
  (loads (content response) = NotJson -> contains "[" path = false ->
   handle_response texts loads rt response (Some (PathStr path))
   = Returned VNone)
  /\ (forall v : Value,
         loads (content response) = Decoded v -> is_number v = true ->
         handle_response texts loads rt response (Some (PathStr path))
         = Returned VNone).
Proof.
  intros Hok Hne.
  assert (Hpaths : no_paths (Some (PathStr path)) = false).
  { simpl. destruct path; [|reflexivity]. exfalso. apply Hne. reflexivity. }
  unfold handle_response. rewrite Hok, Hpaths. cbn [negb].
  unfold parse_response. split.
  - intros Hl Hplain. rewrite Hl.
    rewrite (strings_resolve_to_none rt (tokenize path) Hne
               (tokenize_no_bracket path Hplain)).
    reflexivity.
  - intros v Hl Hnum. rewrite Hl.
    rewrite (numbers_resolve_to_none rt (tokenize path) Hne v Hnum).
    reflexivity.
Qed.

Lemma bodies_without_inside_answer_none_witness :
  handle_response {| status_text := "E "; detail_text := " D " |}
    (fun _ => NotJson) cpython
    {| ok := true; status := 200; reason := "OK"; content := "<html>" |}
    (Some (PathStr "data.items"))
  = Returned VNone.
Proof.
  refine (proj1 (bodies_without_inside_answer_none
                   {| status_text := "E "; detail_text := " D " |}
                   (fun _ => NotJson) cpython
                   {| ok := true; status := 200; reason := "OK";
                      content := "<html>" |}
                   "data.items" _ _) _ _);
    first [reflexivity|discriminate].
Defined.

(** ** One bracket to a segment *)

Lemma scan_group_parts (t g : string) :
  scan_group t = Some g -> exists rest, t = (g ++ "]" ++ rest)%string.
Proof.
  revert g. induction t as [|c t IH]; intros g; simpl; [discriminate|].
  destruct (Ascii.eqb_spec c "]") as [->|Hc].
  - intros H. injection H as <-. exists t. reflexivity.
  - destruct (Ascii.eqb c newline); [discriminate|].
    destruct (scan_group t) as [g'|]; simpl; [|discriminate].
    intros H. injection H as <-. destruct (IH g' eq_refl) as [rest ->].
    exists rest. reflexivity.
Qed.

(** The segment is its field, its first bracket, and something after. *)
Lemma index_search_parts (s prefix g : string) :
  index_search s = Some (prefix, g) ->
  exists rest, s = (prefix ++ "[" ++ g ++ "]" ++ rest)%string.
Proof.
  revert prefix. induction s as [|c s IH]; intros prefix; simpl;
    [discriminate|].
  destruct (Ascii.eqb_spec c "[") as [->|Hc].
  - destruct (scan_group s) as [g'|] eqn:E.
    + intros H. injection H as <- <-.
      destruct (scan_group_parts s g' E) as [rest ->]. exists rest.
      reflexivity.
    + destruct (index_search s) as [[pre g']|]; [|discriminate].
      intros H. injection H as <- <-.
      destruct (IH pre eq_refl) as [rest ->]. exists rest. reflexivity.
  - destruct (index_search s) as [[pre g']|]; [|discriminate].
    intros H. injection H as <- <-.
    destruct (IH pre eq_refl) as [rest ->]. exists rest. reflexivity.
Qed.

Lemma index_search_rebuild (s prefix g : string) :
  index_search s = Some (prefix, g) ->
  index_search (prefix ++ "[" ++ g ++ "]")%string = Some (prefix, g).
Proof.
  revert prefix. induction s as [|c s IH]; intros prefix; [discriminate|].
  intros H. pose proof H as H'. simpl in H'.
  destruct (if Ascii.eqb c "[" then scan_group s else None) as [g'|] eqn:E.
  - injection H' as <- <-. apply (index_search_bracket (String c s) EmptyString).
    exact H.
  - destruct (index_search s) as [[pre g']|] eqn:Es; [|discriminate].
    injection H' as <- <-. specialize (IH pre eq_refl).
    change (String c pre ++ "[" ++ g' ++ "]")%string
      with (String c (pre ++ "[" ++ g' ++ "]"))%string.
    cbn [index_search]. rewrite IH.
    destruct (Ascii.eqb c "["); [|reflexivity].
    destruct (scan_group (pre ++ "[" ++ g' ++ "]")%string) as [g2|] eqn:E2;
      [|reflexivity].
    exfalso. destruct (index_search_parts s pre g' Es) as [rest Hrest].
    pose proof (scan_group_app _ rest g2 E2) as E3.
    replace ((pre ++ "[" ++ g' ++ "]") ++ rest)%string with s in E3.
    + congruence.
    + rewrite Hrest. clear. induction pre as [|d pre IHp]; simpl.
      * f_equal. induction g' as [|d g' IHg]; simpl; [reflexivity|].
        f_equal. exact IHg.
      * f_equal. exact IHp.
Qed.

(** X15. A segment is read up to its first closed bracket: whatever
    follows it in the segment, a second bracket included, is ignored.
    ["a[0][1]"] and ["a[0]junk"] resolve as ["a[0]"] does. *)
Theorem text_after_bracket_is_ignored (rt : Runtime) (obj : Value)
  (current prefix index_expr : string) (remaining : list string) :
  index_search current = Some (prefix, index_expr) ->
  (exists rest, current = (prefix ++ "[" ++ index_expr ++ "]" ++ rest)%string)
  /\ resolve_path rt obj (current :: remaining)
     = resolve_path rt obj
         ((prefix ++ "[" ++ index_expr ++ "]")%string :: remaining).
Proof.
  intros Hs. split; [apply index_search_parts; exact Hs|].
  rewrite !resolve_path_equation_2.
  rewrite Hs, (index_search_rebuild current prefix index_expr Hs).
  reflexivity.
Qed.

Lemma text_after_bracket_is_ignored_witness :
  (exists rest, "a[0][1]" = ("a" ++ "[" ++ "0" ++ "]" ++ rest)%string)
  /\ resolve_path cpython (VDict [("a", VList [VList [VInt 1; VInt 2]])])
       ["a[0][1]"]
     = resolve_path cpython (VDict [("a", VList [VList [VInt 1; VInt 2]])])
         [("a" ++ "[" ++ "0" ++ "]")%string].
Proof.
  apply (text_after_bracket_is_ignored cpython
           (VDict [("a", VList [VList [VInt 1; VInt 2]])])
           "a[0][1]" "a" "0" []).
  reflexivity.
Defined.

(** ** A single index *)

(** X16. A single index in a bracket, on a list: a position from [0]
    counts from the front, a negative one from the end, and the element
    there is returned; a position outside the list yields [None], with no
    exception, whatever the tail. *)
Theorem single_index_bounds (rt : Runtime) (obj : Value)
  (current prefix index_expr : string) (items : list Value) (i : Z) :
  index_search current = Some (prefix, index_expr) ->
  descend rt (strip prefix) obj = Ok (VList items) ->
  parse_int rt index_expr = Some i ->
  contains ":" index_expr = false ->
  let len := Z.of_nat (length items) in
  (0 <= i < len ->
   exists item, nth_error items (Z.to_nat i) = Some item
                /\ resolve_path rt obj [current] = Ok item)
  /\ (- len <= i < 0 ->
      exists item, nth_error items (Z.to_nat (len + i)) = Some item
                   /\ resolve_path rt obj [current] = Ok item)
  /\ (i < - len \/ len <= i ->
      forall remaining, resolve_path rt obj (current :: remaining) = Ok VNone).
Proof.
  intros Hs Hd Hi Hcolon len.
  assert (Hstar : String.eqb index_expr "*" = false).
  { destruct (String.eqb_spec index_expr "*") as [->|]; [|reflexivity].
    unfold parse_int in Hi. simpl in Hi. discriminate. }
  assert (Hstep : forall remaining,
             resolve_path rt obj (current :: remaining)
             = try_except [ValueError; TypeError; IndexError]
                 (item <- match list_item items i with
                          | Some v => Ok v
                          | None => Raise IndexError
                          end ;;
                  resolve_path rt item remaining)).
  { intros remaining. rewrite resolve_path_equation_2.
    rewrite (descend_list_not_none rt _ _ _ Hd), Hs. cbn zeta.
    rewrite Hd. cbn [bind]. rewrite Hstar, Hcolon.
    unfold py_int. rewrite Hi. reflexivity. }
  repeat split.
  - intros Hr. assert (Hn : (Z.to_nat i < length items)%nat) by lia.
    destruct (nth_error items (Z.to_nat i)) as [item|] eqn:E;
      [|apply nth_error_None in E; lia].
    exists item. split; [reflexivity|]. rewrite Hstep. unfold list_item.
    fold len.
    destruct (Z.ltb_spec i 0); [lia|].
    destruct (Z.leb_spec 0 i); [|lia]. destruct (Z.ltb_spec i len); [|lia].
    cbn [andb]. rewrite E. cbn [bind]. simp resolve_path. reflexivity.
  - intros Hr. assert (Hn : (Z.to_nat (len + i) < length items)%nat) by lia.
    destruct (nth_error items (Z.to_nat (len + i))) as [item|] eqn:E;
      [|apply nth_error_None in E; lia].
    exists item. split; [reflexivity|]. rewrite Hstep. unfold list_item.
    fold len. rewrite (Z.add_comm i len).
    destruct (Z.ltb_spec i 0); [|lia].
    destruct (Z.leb_spec 0 (len + i)); [|lia].
    destruct (Z.ltb_spec (len + i) len); [|lia].
    cbn [andb]. rewrite E. cbn [bind]. simp resolve_path. reflexivity.
  - intros Hr remaining. rewrite Hstep. unfold list_item. fold len.
    destruct (Z.ltb_spec i 0).
    + destruct (Z.leb_spec 0 (i + len)); [lia|]. reflexivity.
    + destruct (Z.leb_spec 0 i); [|lia]. destruct (Z.ltb_spec i len); [lia|].
      reflexivity.
Qed.

Lemma single_index_bounds_witness :
  (exists item, nth_error [VInt 1; VInt 2; VInt 3] (Z.to_nat (3 + -1)) = Some item
                /\ resolve_path cpython (VList [VInt 1; VInt 2; VInt 3]) ["[-1]"]
                   = Ok item)
  /\ resolve_path cpython (VList [VInt 1; VInt 2; VInt 3]) ["[-1]"]
     = Ok (VInt 3).
Proof.
  split; [|reflexivity].
  refine (proj1 (proj2 (single_index_bounds cpython
                          (VList [VInt 1; VInt 2; VInt 3]) "[-1]" EmptyString
                          "-1" [VInt 1; VInt 2; VInt 3] (-1) _ _ _ _)) _);
    first [reflexivity|simpl; lia].
Defined.
